(** * my-fav-channel: the channel resolver and the image endpoint

    A shallow embedding of [utils/fetchFavChannel.ts]
    ([fetchMostActiveChannelImage]) and of [api/index.ts] ([handler]).

    JavaScript values are modelled as the code uses them: strings as
    [string], counters and HTTP status codes as [Z], pixel arithmetic as
    binary64 [float] (the JavaScript Number type), plain objects used as
    dictionaries as lists of own properties in creation order, read through
    the prototype chain and enumerated in the order of [Object.entries].
    The two [axios.get] calls, [loadImage], [Date.now] and the host's
    [String.prototype.toLowerCase] are inputs of the model. *)

From Stdlib Require Import String Ascii List ZArith NArith Lia Bool.
From Stdlib Require Import DecimalString Floats Sorted.
Import ListNotations.
Open Scope string_scope.

(* ================================================================= *)
(** ** JavaScript values, strings and plain objects *)

Module JS.

(** The values an [address] can be at run time: the query parser of the
    endpoint yields [undefined], a string or an array of strings; the other
    shapes are what an untyped caller of the resolver may pass. *)
Inductive value : Type :=
| Undefined
| Null
| Boolean (b : bool)
| Number (n : Z)
| Str (s : string)
| StrArray (l : list string).

(** [ToBoolean]: what [!v] and [if (v)] look at. *)
Definition truthy (v : value) : bool :=
  match v with
  | Undefined | Null => false
  | Boolean b => b
  | Number n => negb (n =? 0)%Z
  | Str s => negb (s =? "")
  | StrArray _ => true
  end.

Definition typeof (v : value) : string :=
  match v with
  | Undefined => "undefined"
  | Null => "object"
  | Boolean _ => "boolean"
  | Number _ => "number"
  | Str _ => "string"
  | StrArray _ => "object"
  end.

(** The lower-casing of the letters A to Z. On a string of ASCII
    characters it is what [String.prototype.toLowerCase] returns; the sample
    upstreams, whose addresses are ASCII, lower-case with it. (What the
    resolver lower-cases with is an input: [toLowerCase] of [Upstream].) *)
Definition lower_ascii (c : ascii) : ascii :=
  let n := nat_of_ascii c in
  if ((65 <=? n) && (n <=? 90))%nat then ascii_of_nat (n + 32) else c.

Fixpoint asciiToLowerCase (s : string) : string :=
  match s with
  | EmptyString => EmptyString
  | String c t => String (lower_ascii c) (asciiToLowerCase t)
  end.

(** [hay.includes(needle)]. *)
Fixpoint includes (hay needle : string) : bool :=
  prefix needle hay
  || match hay with
     | EmptyString => false
     | String _ t => includes t needle
     end.

(** A property key is an array index when it is the canonical decimal
    spelling of an integer below 2^32 - 1. *)
Definition array_index (k : string) : option N :=
  match NilEmpty.uint_of_string k with
  | Some u =>
      let n := N.of_uint u in
      if (NilZero.string_of_uint (N.to_uint n) =? k) && (n <? 4294967295)%N
      then Some n else None
  | None => None
  end.

(** The properties every plain object inherits from [Object.prototype].
    All of them hold a function, except [__proto__], which reads as the
    prototype object itself; each of these values is truthy. *)
Definition Object_prototype_keys : list string :=
  [ "constructor"; "__defineGetter__"; "__defineSetter__"; "hasOwnProperty";
    "__lookupGetter__"; "__lookupSetter__"; "isPrototypeOf";
    "propertyIsEnumerable"; "toString"; "valueOf"; "__proto__";
    "toLocaleString" ].

Definition inherited (k : string) : bool :=
  existsb (String.eqb k) Object_prototype_keys.

(** The [length] of an inherited value: the arity of the function, and
    [undefined] for the prototype object. *)
Definition inherited_length (k : string) : option Z :=
  if (k =? "__defineGetter__") || (k =? "__defineSetter__") then Some 2%Z
  else if (k =? "toString") || (k =? "valueOf") || (k =? "toLocaleString")
  then Some 0%Z
  else if k =? "__proto__" then None
  else Some 1%Z.

Section PlainObject.
Context {V : Type}.

(** Own enumerable string-keyed properties, in creation order. *)
Definition obj : Type := list (string * V).

Fixpoint own_get (o : obj) (k : string) : option V :=
  match o with
  | [] => None
  | (k', v) :: t => if k' =? k then Some v else own_get t k
  end.

(** [o[k] = v]: an existing property keeps its place, a new one is
    created last. *)
Fixpoint own_set (o : obj) (k : string) (v : V) : obj :=
  match o with
  | [] => [(k, v)]
  | (k', v') :: t =>
      if k' =? k then (k, v) :: t else (k', v') :: own_set t k v
  end.

(** What [o[k]] evaluates to. *)
Inductive lookup : Type :=
| Own (v : V)
| Inherited
| Absent.

Definition get (o : obj) (k : string) : lookup :=
  match own_get o k with
  | Some v => Own v
  | None => if inherited k then Inherited else Absent
  end.

(** [OrdinaryOwnPropertyKeys]: array indices in ascending numeric
    order, then the other keys in creation order. *)
Fixpoint insert_index (i : N) (e : string * V)
         (l : list (N * (string * V))) : list (N * (string * V)) :=
  match l with
  | [] => [(i, e)]
  | (j, e') :: t =>
      if (i <=? j)%N then (i, e) :: l else (j, e') :: insert_index i e t
  end.

Fixpoint index_entries (o : obj) : list (N * (string * V)) :=
  match o with
  | [] => []
  | (k, v) :: t =>
      match array_index k with
      | Some i => insert_index i (k, v) (index_entries t)
      | None => index_entries t
      end
  end.

Definition is_index (e : string * V) : bool :=
  match array_index (fst e) with Some _ => true | None => false end.

Definition Object_entries (o : obj) : list (string * V) :=
  map snd (index_entries o) ++ filter (fun e => negb (is_index e)) o.
End PlainObject.

Arguments obj : clear implicits.
Arguments lookup : clear implicits.

(** What [throw] can carry out of the [try] block: an error object with
    its name and message, [axios.isAxiosError] of it, and the status of its
    [response] when there is one and the status is a number. *)
Record Error : Type := {
  isAxiosError : bool;
  name : string;
  message : string;
  response_status : option Z
}.

(** [`${error}`], that is [Error.prototype.toString]. *)
Definition toString (e : Error) : string :=
  if name e =? "" then message e
  else if message e =? "" then name e
  else name e ++ ": " ++ message e.

(** Reading a property of [undefined]. *)
Definition TypeError_undefined (prop : string) : Error :=
  {| isAxiosError := false;
     name := "TypeError";
     message :=
       "Cannot read properties of undefined (reading '" ++ prop ++ "')";
     response_status := None |}.

End JS.

(* ================================================================= *)
(** ** utils/fetchFavChannel.ts *)

Record MostActiveChannelImage : Type := {
  channelImageUrl : string;
  address : string;
  channelName : string
}.

(** An entry of [NeynarUserResponse]; only [fid] is read. *)
Record Identity : Type := { fid : Z; username : string }.

Module Channel.
Record t : Type := {
  id : string;
  name : string;
  imageUrl : option string;
  image_url : option string
}.
End Channel.

Record Cast : Type := { hash : string; channel : option Channel.t }.

(** The body of the feed response; [casts] may be missing
    ([castsResponse.data?.casts || []]). *)
Record NeynarUserCastResponse : Type := { casts : option (list Cast) }.

Definition NeynarUserResponse : Type := JS.obj (list Identity).

(** The outcome of an [axios.get]: [response.data] (possibly absent), or
    the rejection. *)
Inductive AxiosResult (D : Type) : Type :=
| Resolved (data : option D)
| Rejected (error : JS.Error).
Arguments Resolved {D} data.
Arguments Rejected {D} error.

(** What the resolver depends on outside its own code: the host's
    [String.prototype.toLowerCase], and the two remote endpoints, keyed by
    the request parameters. *)
Record Upstream : Type := {
  toLowerCase : string -> string;
  bulk_by_address : string -> AxiosResult NeynarUserResponse;
  feed_user_popular : Z -> AxiosResult NeynarUserCastResponse
}.

Inductive RemoteCall : Type :=
| GetBulkByAddress (addresses : list string)
| GetFeedUserPopular (fid : Z).

(** The [Error]s the resolver throws, one constructor per [throw]. *)
Inductive ResolverError : Type :=
| InvalidAddress
| AuthenticationFailed
| AccessForbidden
| ServerError
| FetchFailed (address : string) (cause : JS.Error).

Definition error_message (e : ResolverError) : string :=
  match e with
  | InvalidAddress => "Invalid address provided"
  | AuthenticationFailed => "API authentication failed"
  | AccessForbidden => "Access forbidden (403)"
  | ServerError => "Neynar server error"
  | FetchFailed address cause =>
      "Failed to fetch most active channel image for address "
      ++ address ++ ": " ++ JS.toString cause
  end.

Inductive Outcome : Type :=
| Returned (result : option MostActiveChannelImage)
| Threw (error : ResolverError).

(** A run of the resolver: the remote calls it made, in order, and how it
    ended. *)
Record Run : Type := { calls : list RemoteCall; outcome : Outcome }.

Module Activity.
Record t : Type := { count : Z; imageUrl : string; name : string }.
End Activity.

Definition ChannelActivity : Type := JS.obj Activity.t.

(** [a || b] on optional strings. *)
Definition js_or (a b : option string) : option string :=
  match a with
  | Some s => if s =? "" then b else a
  | None => b
  end.

(** [image_url || imageUrl || ""] *)
Definition channelImageUrl_of (ch : Channel.t) : string :=
  match js_or (js_or (Channel.image_url ch) (Channel.imageUrl ch)) (Some "")
  with
  | Some s => s
  | None => ""
  end.

(** [!channelActivity[id]] *)
Definition missing (channelActivity : ChannelActivity) (id : string) : bool :=
  match JS.get channelActivity id with
  | JS.Own _ | JS.Inherited => false
  | JS.Absent => true
  end.

(** [channelActivity[id].count++]. When [channelActivity[id]] is an
    inherited value the [count] of that value is bumped and
    [channelActivity] has no property to change. *)
Definition increment (channelActivity : ChannelActivity) (id : string)
  : ChannelActivity :=
  match JS.own_get channelActivity id with
  | Some a =>
      JS.own_set channelActivity id
        {| Activity.count := Activity.count a + 1;
           Activity.imageUrl := Activity.imageUrl a;
           Activity.name := Activity.name a |}
  | None => channelActivity
  end.

(** The body of the loop over the casts. *)
Definition tally (channelActivity : ChannelActivity) (cast : Cast)
  : ChannelActivity :=
  match channel cast with
  | None => channelActivity
  | Some ch =>
      let id := Channel.id ch in
      let channelImageUrl := channelImageUrl_of ch in
      let channelActivity :=
        if missing channelActivity id
        then JS.own_set channelActivity id
               {| Activity.count := 0;
                  Activity.imageUrl := channelImageUrl;
                  Activity.name := Channel.name ch |}
        else channelActivity in
      increment channelActivity id
  end.

Definition countChannels (casts : list Cast) : ChannelActivity :=
  fold_left tally casts [].

Record MostActive : Type := {
  channelId : string;
  count : Z;
  imageUrl : string;
  name : string
}.

(** The reducer: a later entry replaces the maximum only with a strictly
    larger count. *)
Definition pick (max : option MostActive) (entry : string * Activity.t)
  : option MostActive :=
  let '(channelId, activity) := entry in
  let taken :=
    Some {| channelId := channelId;
            count := Activity.count activity;
            imageUrl := Activity.imageUrl activity;
            name := Activity.name activity |} in
  match max with
  | None => taken
  | Some m => if (Activity.count activity >? count m)%Z then taken else max
  end.

Definition mostActiveOf (channelActivity : ChannelActivity)
  : option MostActive :=
  fold_left pick (JS.Object_entries channelActivity) None.

(** Steps 3 and 4 on a non-empty list of casts. *)
Definition selectChannel (address : string) (casts : list Cast)
  : option MostActiveChannelImage :=
  match mostActiveOf (countChannels casts) with
  | None => None
  | Some mostActive =>
      Some {| channelImageUrl := imageUrl mostActive;
              address := address;
              channelName := name mostActive |}
  end.

(** The [catch] block. *)
Definition on_error (address : string) (error : JS.Error) : Outcome :=
  match JS.isAxiosError error, JS.response_status error with
  | true, Some status =>
      if (status =? 401)%Z then Threw AuthenticationFailed
      else if (status =? 403)%Z then Threw AccessForbidden
      else if (status =? 404)%Z then Returned None
      else if (status >=? 500)%Z then Threw ServerError
      else Threw (FetchFailed address error)
  | _, _ => Threw (FetchFailed address error)
  end.

(** Lines 59-65: the identity list under [addressKey], and the [fid] of
    its first element. *)
Inductive FidLookup : Type :=
| NoIdentity
| FirstFid (userFid : Z)
| Failed (error : JS.Error).

Definition lookupFid (data : option NeynarUserResponse) (addressKey : string)
  : FidLookup :=
  match data with
  | None => NoIdentity
  | Some data =>
      match JS.get data addressKey with
      | JS.Absent => NoIdentity
      | JS.Own [] => NoIdentity
      | JS.Own (user :: _) => FirstFid (fid user)
      | JS.Inherited =>
          match JS.inherited_length addressKey with
          | Some 0%Z => NoIdentity
          | _ => Failed (JS.TypeError_undefined "fid")
          end
      end
  end.

(** [castsResponse.data?.casts || []] *)
Definition castsOf (data : option NeynarUserCastResponse) : list Cast :=
  match data with
  | Some {| casts := Some casts |} => casts
  | _ => []
  end.

Definition fetchMostActiveChannelImage (upstream : Upstream)
           (address : JS.value) : Run :=
  if negb (JS.truthy address) || negb (JS.typeof address =? "string")
  then {| calls := []; outcome := Threw InvalidAddress |}
  else
    match address with
    | JS.Str address =>
        let addressKey := toLowerCase upstream address in
        let call1 := GetBulkByAddress [address] in
        match bulk_by_address upstream address with
        | Rejected error =>
            {| calls := [call1]; outcome := on_error address error |}
        | Resolved data =>
            match lookupFid data addressKey with
            | NoIdentity =>
                {| calls := [call1]; outcome := Returned None |}
            | Failed error =>
                {| calls := [call1]; outcome := on_error address error |}
            | FirstFid userFid =>
                let call2 := GetFeedUserPopular userFid in
                match feed_user_popular upstream userFid with
                | Rejected error =>
                    {| calls := [call1; call2];
                       outcome := on_error address error |}
                | Resolved data =>
                    let casts := castsOf data in
                    {| calls := [call1; call2];
                       outcome :=
                         if (length casts =? 0)%nat then Returned None
                         else Returned (selectChannel address casts) |}
                end
            end
        end
    | _ => {| calls := []; outcome := Threw InvalidAddress |}
    end.

(** Backward compatibility *)
Definition fetchFirstMintedArtwork := fetchMostActiveChannelImage.

(* ================================================================= *)
(** ** api/index.ts *)

Module Canvas.
Open Scope float_scope.

(** What [loadImage] resolves to. *)
Record Image : Type := { src : string; width : float; height : float }.

(** What has been painted, each stroke with the [strokeStyle] and
    [lineWidth] in force when it was made. *)
Inductive Painted : Type :=
| ImageAt (image : Image) (dx dy : float)
| ImageIn (image : Image) (dx dy dw dh : float)
| StrokedRect (style : string) (lineWidth : float) (x y w h : float).

(** A canvas with the state of its 2-D context. *)
Record t : Type := {
  canvas_width : float;
  canvas_height : float;
  strokeStyle : string;
  lineWidth : float;
  painted : list Painted
}.

Definition createCanvas (w h : float) : t :=
  {| canvas_width := w; canvas_height := h;
     strokeStyle := "#000000"; lineWidth := 1; painted := [] |}.

Definition paint (c : t) (p : Painted) : t :=
  {| canvas_width := canvas_width c; canvas_height := canvas_height c;
     strokeStyle := strokeStyle c; lineWidth := lineWidth c;
     painted := painted c ++ [p] |}.

Definition drawImage (c : t) (image : Image) (dx dy : float) : t :=
  paint c (ImageAt image dx dy).

Definition drawImageIn (c : t) (image : Image) (dx dy dw dh : float) : t :=
  paint c (ImageIn image dx dy dw dh).

Definition set_strokeStyle (c : t) (style : string) : t :=
  {| canvas_width := canvas_width c; canvas_height := canvas_height c;
     strokeStyle := style; lineWidth := lineWidth c;
     painted := painted c |}.

Definition set_lineWidth (c : t) (w : float) : t :=
  {| canvas_width := canvas_width c; canvas_height := canvas_height c;
     strokeStyle := strokeStyle c; lineWidth := w;
     painted := painted c |}.

Definition strokeRect (c : t) (x y w h : float) : t :=
  paint c (StrokedRect (strokeStyle c) (lineWidth c) x y w h).
End Canvas.

Inductive HeaderValue : Type :=
| Text (s : string)
| IsoDate (epoch_ms : Z).   (* [new Date(epoch_ms).toISOString()] *)

Inductive Json : Type :=
| JString (s : string)
| JNumber (n : Z).

Inductive Body : Type :=
| JsonBody (fields : list (string * Json))
| PngBuffer (canvas : Canvas.t).   (* [canvas.toBuffer("image/png")] *)

Record VercelResponse : Type := {
  statusCode : Z;
  headers : list (string * HeaderValue);
  body : Body
}.

Record VercelRequest : Type := { query_address : JS.value }.

(** The three [loadImage] calls of the handler. *)
Inductive LoadSite : Type := TemplateLoad | ArtworkLoad | PlaceholderLoad.

(** What a request runs against. [loadImage site source] is [None] when
    the load rejects. *)
Record World : Type := {
  templatePath : string;   (* [path.join(process.cwd(), "public", "template.png")] *)
  loadImage : LoadSite -> string -> option Canvas.Image;
  upstream : Upstream;
  now : Z                  (* [Date.now()] *)
}.

Definition placeholderUrl : string :=
  "https://www.svgrepo.com/show/508699/landscape-placeholder.svg".

Section Geometry.
Open Scope float_scope.
#[local] Set Warnings "-inexact-float".

Definition maxWidth : float := 670.
Definition maxHeight : float := 670.
Definition shiftUp : float := 28.5.
Definition shiftRight : float := 0.1.

(** [(displayWidth, displayHeight)] *)
Definition displaySize (artworkImage : Canvas.Image) : float * float :=
  let aspectRatio :=
    Canvas.width artworkImage / Canvas.height artworkImage in
  let displayWidth := maxWidth in
  let displayHeight := maxWidth / aspectRatio in
  if maxHeight <? displayHeight
  then (maxHeight * aspectRatio, maxHeight)
  else (displayWidth, displayHeight).

(** Lines 103-132. *)
Definition drawArtwork (canvas : Canvas.t) (artworkImage : Canvas.Image)
  : Canvas.t :=
  let '(displayWidth, displayHeight) := displaySize artworkImage in
  let x := (Canvas.canvas_width canvas - displayWidth) / 2 + shiftRight in
  let y := (Canvas.canvas_height canvas - displayHeight) / 2 - shiftUp in
  let canvas :=
    Canvas.drawImageIn canvas artworkImage x y displayWidth displayHeight in
  let canvas := Canvas.set_strokeStyle canvas "rgba(255, 255, 255, 0.3)" in
  let canvas := Canvas.set_lineWidth canvas 2 in
  Canvas.strokeRect canvas (x - 2) (y - 2)
                    (displayWidth + 4) (displayHeight + 4).
End Geometry.

(** Lines 76-100: the artwork to draw, if any. *)
Definition chooseArtwork (world : World)
           (firstMintedArtwork : option MostActiveChannelImage)
  : option Canvas.Image :=
  let '(artworkImage, usePlaceholder) :=
    match firstMintedArtwork with
    | Some found =>
        if negb (channelImageUrl found =? "")
        then match loadImage world ArtworkLoad (channelImageUrl found) with
             | Some image => (Some image, false)
             | None => (None, true)
             end
        else (None, true)
    | None => (None, true)
    end in
  if usePlaceholder
  then match loadImage world PlaceholderLoad placeholderUrl with
       | Some image => Some image
       | None => artworkImage
       end
  else artworkImage.

(** Lines 69-140. *)
Definition render (world : World) (templateImage : Canvas.Image)
           (firstMintedArtwork : option MostActiveChannelImage)
  : VercelResponse :=
  let canvas :=
    Canvas.createCanvas (Canvas.width templateImage)
                        (Canvas.height templateImage) in
  let canvas := Canvas.drawImage canvas templateImage 0 0 in
  let canvas :=
    match chooseArtwork world firstMintedArtwork with
    | Some artworkImage => drawArtwork canvas artworkImage
    | None => canvas
    end in
  {| statusCode := 200;
     headers := [ ("Content-Type", Text "image/png");
                  ("Cache-Control", Text "public, max-age=300");
                  ("X-Content-Type-Options", Text "nosniff");
                  ("X-Frame-Options", Text "DENY") ];
     body := PngBuffer canvas |}.

(** A [new Error(...)] has no [response]. *)
Definition error_response_status (error : ResolverError) : option Z := None.

(** The inner [catch]: lines 31-67. *)
Definition respondToError (world : World) (error : ResolverError)
  : VercelResponse :=
  let message := error_message error in
  if JS.includes message "Rate limit exceeded"
     || JS.includes message "429"
     || match error_response_status error with
        | Some status => (status =? 429)%Z
        | None => false
        end
  then
    {| statusCode := 429;
       headers := [ ("Retry-After", Text "60");
                    ("X-RateLimit-Reset", IsoDate (now world + 60000)) ];
       body := JsonBody
         [ ("error", JString "Rate limit exceeded. Please try again later.");
           ("retryAfter", JNumber 60);
           ("message", JString
              "Too many requests to external API. Please wait before retrying.") ] |}
  else if JS.includes message "Invalid address"
  then
    {| statusCode := 400;
       headers := [];
       body := JsonBody
         [ ("error", JString "Invalid Ethereum address provided");
           ("message", JString
              "Please provide a valid Ethereum address in 0x format.") ] |}
  else
    {| statusCode := 503;
       headers := [ ("Retry-After", Text "30") ];
       body := JsonBody
         [ ("error", JString
              "External API service temporarily unavailable. Please try again later.");
           ("message", JString
              "The external API is currently experiencing issues. Please retry in 30 seconds.") ] |}.

(** The outer [catch]. *)
Definition internalServerError : VercelResponse :=
  {| statusCode := 500;
     headers := [];
     body := JsonBody
       [ ("error", JString "Internal server error");
         ("message", JString
            "An unexpected error occurred while processing your request.") ] |}.

Definition handler (world : World) (req : VercelRequest) : VercelResponse :=
  let address := query_address req in
  if negb (JS.truthy address)
  then {| statusCode := 400;
          headers := [];
          body := JsonBody
            [ ("error", JString "Valid Ethereum address is required") ] |}
  else
    match loadImage world TemplateLoad (templatePath world) with
    | None => internalServerError
    | Some templateImage =>
        match outcome (fetchMostActiveChannelImage (upstream world) address)
        with
        | Threw error => respondToError world error
        | Returned firstMintedArtwork =>
            render world templateImage firstMintedArtwork
        end
    end.

(* ================================================================= *)
(** ** Notions the statements are written in *)

(** The cast names channel [id]. *)
Definition names (id : string) (cast : Cast) : bool :=
  match channel cast with
  | Some ch => Channel.id ch =? id
  | None => false
  end.

Definition mentions (id : string) (casts : list Cast) : bool :=
  existsb (names id) casts.

(** The number of casts naming channel [id]. *)
Definition occurrences (id : string) (casts : list Cast) : nat :=
  length (filter (names id) casts).

(** The channel record carried by the first cast naming [id]. *)
Definition first_channel (id : string) (casts : list Cast)
  : option Channel.t :=
  match find (names id) casts with
  | Some cast => channel cast
  | None => None
  end.

(** The position of the first cast naming [id] (the length of the list
    when no cast does). *)
Fixpoint first_index (id : string) (casts : list Cast) : nat :=
  match casts with
  | [] => 0
  | cast :: rest => if names id cast then 0 else S (first_index id rest)
  end.

(** The aggregate the scan holds for [id]: nothing for a channel-id that
    is the name of an inherited property or that no cast names, otherwise
    the number of casts naming it with the image and name of the first
    such cast. *)
Definition expected_entry (id : string) (casts : list Cast)
  : option Activity.t :=
  if JS.inherited id then None
  else
    match first_channel id casts with
    | Some ch =>
        Some {| Activity.count := Z.of_nat (occurrences id casts);
                Activity.imageUrl := channelImageUrl_of ch;
                Activity.name := Channel.name ch |}
    | None => None
    end.

(** The order in which [Object.entries] lists two channel-ids of the
    scan: array indices first, by value; then the other ids, by first
    appearance in the casts. *)
Definition enumerated_before (casts : list Cast) (a b : string) : bool :=
  match JS.array_index a, JS.array_index b with
  | Some i, Some j => (i <? j)%N
  | Some _, None => true
  | None, Some _ => false
  | None, None => (first_index a casts <? first_index b casts)%nat
  end.

(** The record the resolver returns when it selects channel [ch]. *)
Definition image_of (address : string) (ch : Channel.t)
  : MostActiveChannelImage :=
  {| channelImageUrl := channelImageUrl_of ch;
     address := address;
     channelName := Channel.name ch |}.

(** [result] is the selection of a channel of maximal count, where
    [earlier a b] decides between two channels of equal count: the channel
    selected is [earlier] than every other channel tied with it. *)
Definition selects_maximum (earlier : string -> string -> bool)
           (address : string) (casts : list Cast)
           (result : option MostActiveChannelImage) : Prop :=
  exists ch : Channel.t,
    first_channel (Channel.id ch) casts = Some ch
    /\ result = Some (image_of address ch)
    /\ (forall id, mentions id casts = true ->
                   (occurrences id casts <= occurrences (Channel.id ch) casts)%nat)
    /\ (forall id, mentions id casts = true -> id <> Channel.id ch ->
                   occurrences id casts = occurrences (Channel.id ch) casts ->
                   earlier (Channel.id ch) id = true).

(** First-seen order: the first cast of [a] comes before the first cast
    of [b]. *)
Definition first_seen_before (casts : list Cast) (a b : string) : bool :=
  (first_index a casts <? first_index b casts)%nat.

Definition has_channel (cast : Cast) : bool :=
  match channel cast with
  | Some _ => true
  | None => false
  end.

(** The cast names a channel whose id is the name of a property that
    every plain object inherits. *)
Definition shadowed (cast : Cast) : bool :=
  match channel cast with
  | Some ch => JS.inherited (Channel.id ch)
  | None => false
  end.

(** The cast names a channel whose id is an array index. *)
Definition indexed (cast : Cast) : bool :=
  match channel cast with
  | Some ch =>
      match JS.array_index (Channel.id ch) with
      | Some _ => true
      | None => false
      end
  | None => false
  end.

(** The two remote calls succeed for [address]: the identity lookup
    answers with a non-empty identity list under the lower-cased address,
    and the feed of its first identity is [casts]. *)
Definition serves (upstream : Upstream) (address : string)
           (casts : list Cast) : Prop :=
  exists (data : NeynarUserResponse) (user : Identity) (rest : list Identity)
         (feed : option NeynarUserCastResponse),
    bulk_by_address upstream address = Resolved (Some data)
    /\ JS.own_get data (toLowerCase upstream address) = Some (user :: rest)
    /\ feed_user_popular upstream (fid user) = Resolved feed
    /\ castsOf feed = casts.

(** The enumeration order of two keys of a plain object, given the
    creation order [before] of the keys that are not array indices. *)
Definition enum_rel (before : string -> string -> Prop) (a b : string)
  : Prop :=
  match JS.array_index a, JS.array_index b with
  | Some i, Some j => (i < j)%N
  | Some _, None => True
  | None, Some _ => False
  | None, None => before a b
  end.

(** [{ channelId, ...activity }] *)
Definition as_MostActive (entry : string * Activity.t) : MostActive :=
  {| channelId := fst entry;
     count := Activity.count (snd entry);
     imageUrl := Activity.imageUrl (snd entry);
     name := Activity.name (snd entry) |}.

(** The cast contributes nothing to the aggregate: it has no channel, or
    a channel whose id is shadowed. *)
Definition uncounted (cast : Cast) : bool :=
  negb (has_channel cast) || shadowed cast.

(** The error kinds of the specification. *)
Inductive ErrorKind : Type :=
| InvalidInput
| AuthFailure
| Forbidden
| RateLimited
| UpstreamServerError
| UpstreamUnavailable.

(** The kind each error of the resolver stands for; [FetchFailed] is the
    catch-all that wraps the cause and the address. No [throw] of the
    resolver is particular to rate limiting. *)
Definition kind_of (error : ResolverError) : ErrorKind :=
  match error with
  | InvalidAddress => InvalidInput
  | AuthenticationFailed => AuthFailure
  | AccessForbidden => Forbidden
  | ServerError => UpstreamServerError
  | FetchFailed _ _ => UpstreamUnavailable
  end.

(** The HTTP status a rejection carries, when it is an axios error with a
    response. *)
Definition http_status (error : JS.Error) : option Z :=
  if JS.isAxiosError error then JS.response_status error else None.

(** One of the two remote calls of the resolver rejects with [error]. *)
Definition rejects (upstream : Upstream) (address : string)
           (error : JS.Error) : Prop :=
  bulk_by_address upstream address = Rejected error
  \/ exists (data : NeynarUserResponse) (user : Identity)
            (rest : list Identity),
       bulk_by_address upstream address = Resolved (Some data)
       /\ JS.own_get data (toLowerCase upstream address) = Some (user :: rest)
       /\ feed_user_popular upstream (fid user) = Rejected error.

(** The address is the empty string or is not a string. *)
Definition empty_or_not_string (address : JS.value) : Prop :=
  match address with
  | JS.Str s => s = ""
  | _ => True
  end.

(** The canvas of a request before any artwork: the template at the
    origin of a canvas of its size. *)
Definition templateCanvas (templateImage : Canvas.Image) : Canvas.t :=
  Canvas.drawImage
    (Canvas.createCanvas (Canvas.width templateImage)
                         (Canvas.height templateImage))
    templateImage 0 0.

(** The cases in which the resolver finds nothing: a remote call is
    answered 404, the identity lookup yields no identity, or the feed holds
    no cast that counts. *)
Definition not_found_case (upstream : Upstream) (address : string) : Prop :=
  (exists error,
      rejects upstream address error /\ http_status error = Some 404%Z)
  \/ (exists data,
         bulk_by_address upstream address = Resolved data
         /\ lookupFid data (toLowerCase upstream address) = NoIdentity)
  \/ (exists casts,
         serves upstream address casts /\ forallb uncounted casts = true).

(** The cast contributes to the aggregate. *)
Definition counted (cast : Cast) : bool := negb (uncounted cast).

(** The sum of the counts the aggregate holds. *)
Definition total_count (channelActivity : ChannelActivity) : Z :=
  fold_right (fun entry sum => (Activity.count (snd entry) + sum)%Z) 0%Z
             channelActivity.

(** The first identity the lookup lists under the lower-cased address. *)
Definition first_identity (upstream : Upstream) (address : string)
  : option Identity :=
  match bulk_by_address upstream address with
  | Resolved (Some data) =>
      match JS.own_get data (toLowerCase upstream address) with
      | Some (user :: _) => Some user
      | _ => None
      end
  | _ => None
  end.

(** The identity response holds no identity under [key]: there is no
    response body, or the list under [key] is empty, or there is no own
    property [key] and what is inherited under [key], if anything, is a
    function without parameters (its [length] is 0, as for [toString]). *)
Definition no_identity (data : option NeynarUserResponse) (key : string)
  : Prop :=
  match data with
  | None => True
  | Some data =>
      match JS.own_get data key with
      | Some identities => identities = []
      | None =>
          JS.inherited key = false \/ JS.inherited_length key = Some 0%Z
      end
  end.

(* ================================================================= *)
(** ** Binary64 values

    The specification of the binary64 operations ([SpecFloat]) works on
    sign, mantissa and exponent. *)

Section Binary64Values.
Open Scope Z_scope.



End Binary64Values.

(* ================================================================= *)
(** ** Concrete requests and upstream answers *)

Module Sample.

Definition address : string := "0xAbC0000000000000000000000000000000000001".

Definition in_channel (id name : string) : Cast :=
  {| hash := "0xcast";
     channel := Some {| Channel.id := id;
                        Channel.name := name;
                        Channel.imageUrl := None;
                        Channel.image_url := Some ("https://img/" ++ id) |} |}.

Definition user : Identity := {| fid := 7; username := "alice" |}.

(** An upstream that knows [address] and answers its feed with [casts]. *)
Definition serving (casts : list Cast) : Upstream :=
  {| toLowerCase := JS.asciiToLowerCase;
     bulk_by_address := fun _ =>
       Resolved (Some [(JS.asciiToLowerCase address, [user])]);
     feed_user_popular := fun _ =>
       Resolved (Some {| casts := Some casts |}) |}.

(** An upstream whose identity lookup rejects with [error]. *)
Definition failing (error : JS.Error) : Upstream :=
  {| toLowerCase := JS.asciiToLowerCase;
     bulk_by_address := fun _ => Rejected error;
     feed_user_popular := fun _ => Resolved None |}.

(** The rejection axios produces for a response with status [status]. *)
Definition status_error (status : Z) : JS.Error :=
  {| JS.isAxiosError := true;
     JS.name := "AxiosError";
     JS.message := "Request failed with status code "
                   ++ NilZero.string_of_int (Z.to_int status);
     JS.response_status := Some status |}.

(** The rejection axios produces when the 10 s timeout expires. *)
Definition timeout_error : JS.Error :=
  {| JS.isAxiosError := true;
     JS.name := "AxiosError";
     JS.message := "timeout of 10000ms exceeded";
     JS.response_status := None |}.

(** Two channels with one cast each; the channel seen first has an
    ordinary id, the second an id that is an array index. *)
Definition tied_casts : list Cast :=
  [ in_channel "base" "Base"; in_channel "1" "One" ].

(** Three casts in channel "a", two in "b". *)
Definition three_two : list Cast :=
  [ in_channel "b" "B"; in_channel "a" "A"; in_channel "a" "A";
    in_channel "b" "B"; in_channel "a" "A" ].

(** A single cast, in a channel called "constructor". *)
Definition constructor_casts : list Cast :=
  [ in_channel "constructor" "Constructor" ].

End Sample.

Module SampleWorld.
Open Scope float_scope.

Definition template : Canvas.Image :=
  {| Canvas.src := "public/template.png";
     Canvas.width := 1000; Canvas.height := 1000 |}.

(** A channel image twice as wide as high. *)
Definition wide_artwork : Canvas.Image :=
  {| Canvas.src := "https://img/a";
     Canvas.width := 800; Canvas.height := 400 |}.

Definition placeholder : Canvas.Image :=
  {| Canvas.src := placeholderUrl;
     Canvas.width := 512; Canvas.height := 512 |}.

(** Every image loads. *)
Definition world (upstream : Upstream) : World :=
  {| templatePath := "/var/task/public/template.png";
     loadImage := fun site _ =>
       match site with
       | TemplateLoad => Some template
       | ArtworkLoad => Some wide_artwork
       | PlaceholderLoad => Some placeholder
       end;
     upstream := upstream;
     now := 1767225600000 |}.

(** A well-formed Ethereum address whose digits contain "429". *)
Definition address_429 : string :=
  "0x4290000000000000000000000000000000000000".

Definition request (address : string) : VercelRequest :=
  {| query_address := JS.Str address |}.

End SampleWorld.

Module SampleRender.

(** The request for [Sample.address] when its most active channel is "a"
    and every image loads. *)
Definition world : World :=
  SampleWorld.world (Sample.serving Sample.three_two).

Definition response : VercelResponse :=
  handler world (SampleWorld.request Sample.address).

Definition canvas : Canvas.t :=
  match body response with
  | PngBuffer canvas => canvas
  | JsonBody _ => Canvas.createCanvas 0 0
  end.

(** The identity lookup is answered 404. *)
Definition world_404 : World :=
  SampleWorld.world (Sample.failing (Sample.status_error 404)).

End SampleRender.

(* ================================================================= *)
(** ** Plain objects: reading, writing and enumerating *)


Section SortedFacts.
Context {A : Type}.

Lemma StronglySorted_snoc (R : A -> A -> Prop) (l : list A) (x : A) :
  StronglySorted R l -> Forall (fun a => R a x) l ->
  StronglySorted R (l ++ [x]).
Proof.
  induction 1 as [|a l Hs IH Ha]; intros Hx; simpl.
  - constructor; constructor.
  - inversion Hx; subst. constructor.
    + apply IH; assumption.
    + apply Forall_app; split; [assumption|]. constructor; [assumption|constructor].
Qed.

Lemma StronglySorted_weaken (R R' : A -> A -> Prop) (l : list A) :
  (forall a b, In a l -> In b l -> R a b -> R' a b) ->
  StronglySorted R l -> StronglySorted R' l.
Proof.
  intros HR Hs. induction Hs as [|a l Hs IH Ha]; constructor.
  - apply IH. intros x y Hx Hy. apply HR; right; assumption.
  - rewrite Forall_forall in *. intros x Hx.
    apply HR; [left; reflexivity | right; assumption | apply Ha; assumption].
Qed.

Lemma StronglySorted_app (R : A -> A -> Prop) (l1 l2 : list A) :
  StronglySorted R l1 -> StronglySorted R l2 ->
  (forall a b, In a l1 -> In b l2 -> R a b) ->
  StronglySorted R (l1 ++ l2).
Proof.
  induction 1 as [|a l Hs IH Ha]; intros H2 Hc; simpl; [assumption|].
  constructor.
  - apply IH; [assumption|]. intros x y Hx Hy. apply Hc; [right|]; assumption.
  - apply Forall_app; split; [assumption|].
    rewrite Forall_forall. intros y Hy. apply Hc; [left; reflexivity|assumption].
Qed.

Lemma StronglySorted_later (R : A -> A -> Prop) (l1 l2 : list A) (a b : A) :
  StronglySorted R (l1 ++ a :: l2) -> In b l2 -> R a b.
Proof.
  induction l1 as [|x l1 IH]; simpl; intros Hs Hb.
  - inversion Hs as [|? ? _ Ha]; subst.
    rewrite Forall_forall in Ha. apply Ha; assumption.
  - inversion Hs; subst. apply IH; assumption.
Qed.

Lemma StronglySorted_filter (R : A -> A -> Prop) (f : A -> bool) (l : list A) :
  StronglySorted R l -> StronglySorted R (filter f l).
Proof.
  induction 1 as [|a l Hs IH Ha]; simpl; [constructor|].
  destruct (f a); [|assumption].
  constructor; [assumption|].
  rewrite Forall_forall in *. intros x Hx.
  apply filter_In in Hx. apply Ha, Hx.
Qed.
End SortedFacts.

Module JSFacts.
Import JS.

Lemma array_index_spelling (k : string) (i : N) :
  array_index k = Some i -> NilZero.string_of_uint (N.to_uint i) = k.
Proof.
  unfold array_index. destruct (NilEmpty.uint_of_string k) as [u|]; [|discriminate].
  destruct (NilZero.string_of_uint (N.to_uint (N.of_uint u)) =? k) eqn:E;
    simpl; [|discriminate].
  destruct (N.of_uint u <? 4294967295)%N; [|discriminate].
  intros H; inversion H; subst. apply String.eqb_eq; assumption.
Qed.

Lemma array_index_inj (k k' : string) (i : N) :
  array_index k = Some i -> array_index k' = Some i -> k = k'.
Proof.
  intros H H'. apply array_index_spelling in H, H'. congruence.
Qed.

Section Facts.
Context {V : Type}.
Implicit Types (o : obj V) (k : string) (v : V).

Lemma own_get_set_same o k v : own_get (own_set o k v) k = Some v.
Proof.
  induction o as [|[k' v'] t IH]; simpl.
  - rewrite String.eqb_refl; reflexivity.
  - destruct (k' =? k) eqn:E; simpl.
    + rewrite String.eqb_refl; reflexivity.
    + rewrite E; assumption.
Qed.

Lemma own_get_set_other o k k' v :
  k <> k' -> own_get (own_set o k v) k' = own_get o k'.
Proof.
  intros Hne. induction o as [|[k0 v0] t IH]; simpl.
  - apply String.eqb_neq in Hne. rewrite Hne; reflexivity.
  - destruct (k0 =? k) eqn:E; simpl.
    + apply String.eqb_eq in E; subst k0.
      apply String.eqb_neq in Hne. rewrite Hne; reflexivity.
    + rewrite IH; reflexivity.
Qed.

Lemma own_get_None o k : own_get o k = None <-> ~ In k (map fst o).
Proof.
  induction o as [|[k' v'] t IH]; simpl.
  - split; [intros _ []|reflexivity].
  - destruct (k' =? k) eqn:E.
    + apply String.eqb_eq in E. split; [discriminate|].
      intros H; exfalso; apply H; left; assumption.
    + apply String.eqb_neq in E. rewrite IH. split.
      * intros H [H1|H1]; [apply E, H1|apply H, H1].
      * intros H H1; apply H; right; assumption.
Qed.

Lemma own_get_In o k v : own_get o k = Some v -> In (k, v) o.
Proof.
  induction o as [|[k' v'] t IH]; simpl; [discriminate|].
  destruct (k' =? k) eqn:E.
  - apply String.eqb_eq in E; subst. intros H; inversion H; subst.
    left; reflexivity.
  - intros H; right; apply IH; assumption.
Qed.

Lemma In_own_get o k v :
  NoDup (map fst o) -> In (k, v) o -> own_get o k = Some v.
Proof.
  induction o as [|[k' v'] t IH]; simpl; intros Hnd Hin; [contradiction|].
  inversion Hnd as [|? ? Hk Hnd']; subst.
  destruct Hin as [Heq|Hin].
  - inversion Heq; subst. rewrite String.eqb_refl; reflexivity.
  - destruct (k' =? k) eqn:E.
    + apply String.eqb_eq in E; subst k'. exfalso; apply Hk.
      apply (in_map fst) in Hin; assumption.
    + apply IH; assumption.
Qed.

Lemma own_set_fresh o k v : own_get o k = None -> own_set o k v = (o ++ [(k, v)])%list.
Proof.
  induction o as [|[k' v'] t IH]; simpl; [reflexivity|].
  destruct (k' =? k); [discriminate|]. intros H; rewrite IH; auto.
Qed.

Lemma own_set_last o k v v' :
  own_get o k = None ->
  own_set (o ++ [(k, v)])%list k v' = (o ++ [(k, v')])%list.
Proof.
  induction o as [|[k0 v0] t IH]; simpl.
  - rewrite String.eqb_refl; reflexivity.
  - destruct (k0 =? k); [discriminate|]. intros H; rewrite IH; auto.
Qed.

Lemma own_set_keys o k v v0 :
  own_get o k = Some v0 -> map fst (own_set o k v) = map fst o.
Proof.
  induction o as [|[k' v'] t IH]; simpl; [discriminate|].
  destruct (k' =? k) eqn:E; simpl.
  - apply String.eqb_eq in E; subst; reflexivity.
  - intros H; rewrite IH; auto.
Qed.
End Facts.
End JSFacts.

(* ================================================================= *)
(** ** The aggregation scan *)

Section TallyFacts.
Import JS JSFacts.

Lemma names_channel (id : string) (cast : Cast) :
  names id cast = true ->
  exists ch, channel cast = Some ch /\ Channel.id ch = id.
Proof.
  unfold names. destruct (channel cast) as [ch|]; [|discriminate].
  intros H. exists ch. split; [reflexivity|]. apply String.eqb_eq; assumption.
Qed.

Lemma find_snoc {A : Type} (f : A -> bool) (l : list A) (x : A) :
  find f (l ++ [x])
  = match find f l with
    | Some y => Some y
    | None => if f x then Some x else None
    end.
Proof.
  induction l as [|a l IH]; simpl; [reflexivity|].
  destruct (f a); [reflexivity|assumption].
Qed.

Lemma find_none_filter {A : Type} (f : A -> bool) (l : list A) :
  find f l = None -> filter f l = [].
Proof.
  induction l as [|a l IH]; simpl; [reflexivity|].
  destruct (f a); [discriminate|assumption].
Qed.

Lemma occurrences_snoc (id : string) (l : list Cast) (c : Cast) :
  occurrences id (l ++ [c])
  = (occurrences id l + if names id c then 1 else 0)%nat.
Proof.
  unfold occurrences. rewrite filter_app, length_app. simpl.
  destruct (names id c); reflexivity.
Qed.

Lemma first_channel_snoc (id : string) (l : list Cast) (c : Cast) :
  first_channel id (l ++ [c])
  = match first_channel id l with
    | Some ch => Some ch
    | None => if names id c then channel c else None
    end.
Proof.
  unfold first_channel. rewrite find_snoc.
  destruct (find (names id) l) as [cast|] eqn:E.
  - apply find_some in E. destruct E as [_ E].
    apply names_channel in E. destruct E as [ch [E _]]. rewrite E. reflexivity.
  - destruct (names id c); reflexivity.
Qed.

Lemma first_channel_cons (id : string) (c : Cast) (l : list Cast) :
  first_channel id (c :: l)
  = if names id c then channel c else first_channel id l.
Proof.
  unfold first_channel. simpl. destruct (names id c); reflexivity.
Qed.

Lemma first_channel_none_occurrences (id : string) (l : list Cast) :
  first_channel id l = None -> occurrences id l = 0%nat.
Proof.
  unfold first_channel, occurrences.
  destruct (find (names id) l) as [cast|] eqn:E.
  - apply find_some in E. destruct E as [_ E].
    apply names_channel in E. destruct E as [ch [E _]]. rewrite E. discriminate.
  - intros _. rewrite (find_none_filter _ _ E). reflexivity.
Qed.

Lemma first_channel_id (id : string) (l : list Cast) (ch : Channel.t) :
  first_channel id l = Some ch -> Channel.id ch = id.
Proof.
  unfold first_channel. destruct (find (names id) l) as [cast|] eqn:E;
    [|discriminate].
  apply find_some in E. destruct E as [_ E].
  apply names_channel in E. destruct E as [ch' [E Hid]].
  rewrite E. intros H; inversion H; subst; reflexivity.
Qed.

Lemma mentions_first_channel (id : string) (l : list Cast) :
  mentions id l = true <-> exists ch, first_channel id l = Some ch.
Proof.
  unfold mentions, first_channel. split.
  - intros H. apply existsb_exists in H. destruct H as [c [Hin Hc]].
    destruct (find (names id) l) as [cast|] eqn:E.
    + apply find_some in E. destruct E as [_ E].
      apply names_channel in E. destruct E as [ch [E _]].
      exists ch; assumption.
    + exfalso. apply (find_none _ _ E) in Hin. congruence.
  - intros [ch H]. destruct (find (names id) l) as [cast|] eqn:E;
      [|discriminate].
    apply find_some in E. apply existsb_exists. exists cast; assumption.
Qed.

Lemma first_index_lt (id : string) (l : list Cast) :
  mentions id l = true <-> (first_index id l < length l)%nat.
Proof.
  unfold mentions. induction l as [|c l IH]; simpl.
  - split; [discriminate|lia].
  - destruct (names id c); simpl; [split; [lia|reflexivity]|].
    rewrite IH. lia.
Qed.

Lemma first_index_snoc (id : string) (l : list Cast) (c : Cast) :
  first_index id (l ++ [c])
  = if mentions id l then first_index id l
    else if names id c then length l else S (length l).
Proof.
  unfold mentions. induction l as [|a l IH]; simpl.
  - destruct (names id c); reflexivity.
  - destruct (names id a); simpl; [reflexivity|]. rewrite IH.
    destruct (existsb (names id) l); [reflexivity|].
    destruct (names id c); reflexivity.
Qed.

Lemma countChannels_snoc (l : list Cast) (c : Cast) :
  countChannels (l ++ [c]) = tally (countChannels l) c.
Proof. unfold countChannels. rewrite fold_left_app. reflexivity. Qed.

(** How one cast changes an aggregate that satisfies the entry
    invariant. *)
Lemma tally_step (act : ChannelActivity) (c : Cast) :
  match channel c with
  | None => tally act c = act
  | Some ch =>
      let id := Channel.id ch in
      if inherited id
      then own_get act id = None -> tally act c = act
      else
        match own_get act id with
        | None =>
            tally act c
            = (act ++ [(id, {| Activity.count := 0 + 1;
                               Activity.imageUrl := channelImageUrl_of ch;
                               Activity.name := Channel.name ch |})])%list
        | Some a =>
            tally act c
            = own_set act id
                {| Activity.count := Activity.count a + 1;
                   Activity.imageUrl := Activity.imageUrl a;
                   Activity.name := Activity.name a |}
        end
  end.
Proof.
  unfold tally. destruct (channel c) as [ch|]; [|reflexivity]. cbv zeta.
  unfold missing, get, increment.
  destruct (inherited (Channel.id ch)) eqn:Hinh.
  - intros Hnone. rewrite Hnone. cbv iota. rewrite Hnone. reflexivity.
  - destruct (own_get act (Channel.id ch)) as [a|] eqn:Hget.
    + cbv iota. rewrite Hget. reflexivity.
    + cbv iota. rewrite own_get_set_same.
      rewrite (own_set_fresh act _ _ Hget).
      apply own_set_last; assumption.
Qed.

(** Every read of the aggregate after the scan. *)
Lemma countChannels_entry (casts : list Cast) (id : string) :
  own_get (countChannels casts) id = expected_entry id casts.
Proof.
  revert id. induction casts as [|c l IH] using rev_ind; intros id.
  - unfold expected_entry. simpl. destruct (inherited id); reflexivity.
  - rewrite countChannels_snoc.
    pose proof (tally_step (countChannels l) c) as Hstep.
    unfold expected_entry.
    rewrite first_channel_snoc, occurrences_snoc.
    unfold names at 1 2.
    destruct (channel c) as [ch|] eqn:Hch.
    2:{ rewrite Hstep, IH. unfold expected_entry.
        destruct (inherited id); [reflexivity|].
        destruct (first_channel id l); [|reflexivity].
        rewrite Nat.add_0_r. reflexivity. }
    cbv zeta in Hstep.
    destruct (Channel.id ch =? id) eqn:Heq.
    + apply String.eqb_eq in Heq. subst id.
      destruct (inherited (Channel.id ch)) eqn:Hinh.
      * rewrite Hstep; [rewrite IH|rewrite IH]; unfold expected_entry;
          rewrite Hinh; reflexivity.
      * pose proof (IH (Channel.id ch)) as IHid.
        unfold expected_entry in IHid. rewrite Hinh in IHid.
        destruct (own_get (countChannels l) (Channel.id ch)) as [a|] eqn:Hget.
        -- rewrite Hstep, own_get_set_same.
           destruct (first_channel (Channel.id ch) l) as [ch0|];
             [|discriminate].
           inversion IHid; subst a. simpl. f_equal. f_equal. lia.
        -- rewrite Hstep.
           destruct (first_channel (Channel.id ch) l) as [ch0|] eqn:Hfc;
             [discriminate|].
           rewrite (first_channel_none_occurrences _ _ Hfc).
           rewrite <- (own_set_fresh _ _ _ Hget), own_get_set_same.
           reflexivity.
    + apply String.eqb_neq in Heq.
      assert (Hsame : own_get (tally (countChannels l) c) id
                      = own_get (countChannels l) id).
      { destruct (inherited (Channel.id ch)) eqn:Hinh.
        - rewrite Hstep; [reflexivity|]. rewrite IH. unfold expected_entry.
          rewrite Hinh. reflexivity.
        - destruct (own_get (countChannels l) (Channel.id ch)) as [a|] eqn:Hget.
          + rewrite Hstep. apply own_get_set_other; assumption.
          + rewrite Hstep, <- (own_set_fresh _ _ _ Hget).
            apply own_get_set_other; assumption. }
      rewrite Hsame, IH. unfold expected_entry.
      destruct (inherited id); [reflexivity|].
      destruct (first_channel id l); [|reflexivity].
      rewrite Nat.add_0_r. reflexivity.
Qed.

Lemma countChannels_key_mentioned (casts : list Cast) (id : string) :
  In id (map fst (countChannels casts)) ->
  mentions id casts = true /\ inherited id = false.
Proof.
  intros Hin.
  destruct (own_get (countChannels casts) id) as [a|] eqn:Hget.
  - rewrite countChannels_entry in Hget. unfold expected_entry in Hget.
    destruct (inherited id); [discriminate|]. split; [|reflexivity].
    apply mentions_first_channel.
    destruct (first_channel id casts) as [ch|]; [|discriminate].
    exists ch; reflexivity.
  - apply own_get_None in Hget. contradiction.
Qed.

(** The properties of the aggregate are created in the order in which
    their channels first appear, one property per channel. *)
Lemma countChannels_keys (casts : list Cast) :
  NoDup (map fst (countChannels casts))
  /\ StronglySorted
       (fun a b => (first_index a casts < first_index b casts)%nat)
       (map fst (countChannels casts)).
Proof.
  induction casts as [|c l [IHnd IHs]] using rev_ind.
  - simpl. split; constructor.
  - assert (Hold : StronglySorted
             (fun a b => (first_index a (l ++ [c]) < first_index b (l ++ [c]))%nat)
             (map fst (countChannels l))).
    { revert IHs. apply StronglySorted_weaken. intros a b Ha Hb Hab.
      apply countChannels_key_mentioned in Ha, Hb.
      rewrite !first_index_snoc. destruct Ha as [-> _], Hb as [-> _].
      assumption. }
    rewrite countChannels_snoc.
    pose proof (tally_step (countChannels l) c) as Hstep.
    destruct (channel c) as [ch|] eqn:Hch;
      [|rewrite Hstep; split; assumption].
    cbv zeta in Hstep.
    destruct (inherited (Channel.id ch)) eqn:Hinh.
    { rewrite Hstep; [split; assumption|].
      rewrite countChannels_entry. unfold expected_entry.
      rewrite Hinh. reflexivity. }
    destruct (own_get (countChannels l) (Channel.id ch)) as [a|] eqn:Hget.
    + rewrite Hstep, (own_set_keys _ _ _ _ Hget). split; assumption.
    + rewrite Hstep, map_app. simpl.
      pose proof Hget as Hfresh. apply own_get_None in Hfresh.
      split.
      * apply NoDup_app; [assumption|constructor; [intros []|constructor]|].
        intros x Hx [Hx'|[]]. subst x. contradiction.
      * apply StronglySorted_snoc; [assumption|].
        apply Forall_forall. intros k Hk.
        apply countChannels_key_mentioned in Hk. destruct Hk as [Hk _].
        rewrite !first_index_snoc, Hk.
        assert (Hno : mentions (Channel.id ch) l = false).
        { destruct (mentions (Channel.id ch) l) eqn:Hm; [|reflexivity].
          exfalso. apply Hfresh.
          assert (Hex : own_get (countChannels l) (Channel.id ch) <> None).
          { rewrite countChannels_entry. unfold expected_entry. rewrite Hinh.
            apply mentions_first_channel in Hm. destruct Hm as [ch0 ->].
            discriminate. }
          rewrite Hget in Hex. contradiction. }
        rewrite Hno. apply first_index_lt in Hk.
        destruct (names (Channel.id ch) c); lia.
Qed.
End TallyFacts.

(* ================================================================= *)
(** ** The order of [Object.entries] *)

Module EntriesFacts.
Import JS JSFacts.

Section Facts.
Context {V : Type}.
Implicit Types (o : obj V) (e : string * V).

Lemma StronglySorted_map {A B : Type} (f : A -> B) (R : B -> B -> Prop)
      (l : list A) :
  StronglySorted R (map f l) -> StronglySorted (fun x y => R (f x) (f y)) l.
Proof.
  induction l as [|a l IH]; simpl; intros Hs; [constructor|].
  inversion Hs as [|? ? Hs' Ha]; subst. constructor; [apply IH; assumption|].
  rewrite Forall_forall in *. intros x Hx. apply Ha, in_map, Hx.
Qed.

Lemma insert_index_In (i : N) e (l : list (N * (string * V))) x :
  In x (insert_index i e l) <-> x = (i, e) \/ In x l.
Proof.
  induction l as [|[j e'] t IH]; simpl.
  - intuition auto.
  - destruct (i <=? j)%N; simpl; [intuition auto|].
    rewrite IH. intuition auto.
Qed.

Lemma index_entries_In o (i : N) e :
  In (i, e) (index_entries o) <-> In e o /\ array_index (fst e) = Some i.
Proof.
  induction o as [|[k v] t IH]; simpl.
  - intuition auto.
  - destruct (array_index k) as [j|] eqn:Hk.
    + rewrite insert_index_In, IH. split.
      * intros [H|[H1 H2]]; [inversion H; subst; simpl; auto|auto].
      * intros [[H|H] Hi]; [subst e; simpl in Hi; left; congruence|auto].
    + rewrite IH. split; [intuition auto|].
      intros [[H|H] Hi]; [subst e; simpl in Hi; congruence|auto].
Qed.

Lemma insert_index_sorted (i : N) e (l : list (N * (string * V))) :
  StronglySorted (fun x y => (fst x < fst y)%N) l ->
  ~ In i (map fst l) ->
  StronglySorted (fun x y => (fst x < fst y)%N) (insert_index i e l).
Proof.
  induction 1 as [|[j e'] t Hs IH Ha]; simpl; intros Hni.
  - constructor; constructor.
  - destruct (i <=? j)%N eqn:Hle.
    + apply N.leb_le in Hle.
      assert (Hlt : (i < j)%N) by (assert (j <> i) by tauto; lia).
      constructor; [constructor; assumption|].
      constructor; [assumption|].
      rewrite Forall_forall in *. intros x Hx. specialize (Ha x Hx).
      simpl in *. lia.
    + apply N.leb_gt in Hle. constructor.
      * apply IH. tauto.
      * rewrite Forall_forall in *. intros x Hx.
        apply insert_index_In in Hx. destruct Hx as [->|Hx];
          [assumption|apply Ha, Hx].
Qed.

Lemma index_entries_sorted o :
  NoDup (map fst o) ->
  StronglySorted (fun x y => (fst x < fst y)%N) (index_entries o).
Proof.
  induction o as [|[k v] t IH]; simpl; intros Hnd; [constructor|].
  inversion Hnd as [|? ? Hk Hnd']; subst.
  destruct (array_index k) as [i|] eqn:Hi; [|apply IH; assumption].
  apply insert_index_sorted; [apply IH; assumption|].
  intros Hin. apply in_map_iff in Hin. destruct Hin as [[j e] [Hj Hin]].
  simpl in Hj; subst j. apply index_entries_In in Hin.
  destruct Hin as [Hin He]. apply Hk.
  rewrite (array_index_inj _ _ _ Hi He). apply in_map; assumption.
Qed.

Lemma Object_entries_In o e : In e (Object_entries o) <-> In e o.
Proof.
  unfold Object_entries. rewrite in_app_iff, in_map_iff, filter_In. split.
  - intros [[[i e'] [He Hin]]|[Hin _]]; [|assumption].
    simpl in He; subst e'. apply index_entries_In in Hin. tauto.
  - intros Hin. unfold is_index.
    destruct (array_index (fst e)) as [i|] eqn:Hi.
    + left. exists (i, e). split; [reflexivity|].
      apply index_entries_In; auto.
    + right. auto.
Qed.

(** The entries come out sorted by the enumeration order. *)
Lemma Object_entries_sorted (before : string -> string -> Prop) o :
  NoDup (map fst o) ->
  StronglySorted before (map fst o) ->
  StronglySorted (fun e1 e2 => enum_rel before (fst e1) (fst e2))
                 (Object_entries o).
Proof.
  intros Hnd Hs. unfold Object_entries. apply StronglySorted_app.
  - pose proof (index_entries_sorted o Hnd) as Hi.
    assert (Hall : forall x, In x (index_entries o) ->
                             array_index (fst (snd x)) = Some (fst x)).
    { intros [i e] Hx. apply index_entries_In in Hx. tauto. }
    induction Hi as [|x l Hl IH Hx]; simpl; [constructor|].
    constructor.
    + apply IH. intros y Hy. apply Hall. right; assumption.
    + rewrite Forall_forall in *. intros e He.
      apply in_map_iff in He. destruct He as [y [<- Hy]].
      unfold enum_rel.
      rewrite (Hall x (or_introl eq_refl)), (Hall y (or_intror Hy)).
      apply Hx, Hy.
  - apply StronglySorted_map in Hs.
    apply (StronglySorted_filter _ (fun e => negb (is_index e))) in Hs.
    revert Hs. apply StronglySorted_weaken.
    intros a b Ha Hb Hab. apply filter_In in Ha, Hb.
    destruct Ha as [_ Ha], Hb as [_ Hb]. unfold is_index in Ha, Hb.
    unfold enum_rel.
    destruct (array_index (fst a)); [discriminate|].
    destruct (array_index (fst b)); [discriminate|]. assumption.
  - intros a b Ha Hb. apply in_map_iff in Ha. destruct Ha as [[i e] [<- Ha]].
    apply index_entries_In in Ha. destruct Ha as [_ Ha]. simpl.
    apply filter_In in Hb. destruct Hb as [_ Hb]. unfold is_index in Hb.
    unfold enum_rel. rewrite Ha.
    destruct (array_index (fst b)); [discriminate|exact I].
Qed.
End Facts.
End EntriesFacts.

(* ================================================================= *)
(** ** The reduction to the most active channel *)

Section ReduceFacts.

(** The reduction returns the first entry whose count is maximal. *)
Lemma pick_first_maximum (entries : list (string * Activity.t)) :
  entries <> [] ->
  exists l1 e l2,
    entries = (l1 ++ e :: l2)%list
    /\ fold_left pick entries None = Some (as_MostActive e)
    /\ (forall x, In x l1 ->
                  (Activity.count (snd x) < Activity.count (snd e))%Z)
    /\ (forall x, In x l2 ->
                  (Activity.count (snd x) <= Activity.count (snd e))%Z).
Proof.
  induction entries as [|x l IH] using rev_ind; [congruence|]. intros _.
  rewrite fold_left_app. destruct x as [k a].
  destruct l as [|y l'].
  - exists [], (k, a), []. simpl.
    split; [reflexivity|]. split; [reflexivity|].
    split; intros ? [].
  - destruct IH as [l1 [e [l2 [Hl [Hf [H1 H2]]]]]]; [discriminate|].
    rewrite Hf. cbn [fold_left pick as_MostActive count].
    destruct (Activity.count a >? Activity.count (snd e))%Z eqn:Hgt.
    + apply Z.gtb_lt in Hgt.
      exists (y :: l'), (k, a), [].
      split; [reflexivity|]. split; [reflexivity|].
      split; [|intros ? []].
      intros z Hz. simpl snd. rewrite Hl in Hz. apply in_app_iff in Hz.
      destruct Hz as [Hz|[Hz|Hz]].
      * specialize (H1 z Hz). lia.
      * subst z. assumption.
      * specialize (H2 z Hz). lia.
    + assert (Hle : (Activity.count a <= Activity.count (snd e))%Z).
      { destruct (Z.gtb_spec (Activity.count a) (Activity.count (snd e)));
          [discriminate|lia]. }
      exists l1, e, (l2 ++ [(k, a)])%list.
      split; [rewrite Hl, <- app_assoc; reflexivity|].
      split; [reflexivity|]. split; [assumption|].
      intros z Hz. apply in_app_iff in Hz. destruct Hz as [Hz|[Hz|[]]].
      * apply H2, Hz.
      * subst z. assumption.
Qed.
End ReduceFacts.

(* ================================================================= *)
(** ** The selection of the most active channel *)

Section SelectFacts.
Import JS JSFacts EntriesFacts.

Lemma enum_rel_enumerated_before (casts : list Cast) (a b : string) :
  enum_rel (fun a b => (first_index a casts < first_index b casts)%nat) a b ->
  enumerated_before casts a b = true.
Proof.
  unfold enum_rel, enumerated_before.
  destruct (array_index a), (array_index b); intros H; try reflexivity.
  - apply N.ltb_lt; assumption.
  - contradiction.
  - apply Nat.ltb_lt; assumption.
Qed.

Lemma mentions_not_shadowed (casts : list Cast) (id : string) :
  existsb shadowed casts = false -> mentions id casts = true ->
  inherited id = false.
Proof.
  intros Hsh Hm. unfold mentions in Hm. apply existsb_exists in Hm.
  destruct Hm as [c [Hin Hc]]. apply names_channel in Hc.
  destruct Hc as [ch [Hch Hid]].
  destruct (inherited id) eqn:E; [|reflexivity].
  assert (Hex : existsb shadowed casts = true).
  { apply existsb_exists. exists c. split; [assumption|].
    unfold shadowed. rewrite Hch, Hid. assumption. }
  congruence.
Qed.

(** A channel that is named, under an id that is not shadowed, has its
    entry among the enumerated ones. *)
Lemma mentioned_entry (casts : list Cast) (id : string) :
  inherited id = false -> mentions id casts = true ->
  exists ch,
    first_channel id casts = Some ch
    /\ In (id, {| Activity.count := Z.of_nat (occurrences id casts);
                  Activity.imageUrl := channelImageUrl_of ch;
                  Activity.name := Channel.name ch |})
          (Object_entries (countChannels casts)).
Proof.
  intros Hinh Hm. apply mentions_first_channel in Hm. destruct Hm as [ch Hch].
  exists ch. split; [assumption|].
  apply (proj2 (Object_entries_In _ _)), own_get_In.
  rewrite countChannels_entry. unfold expected_entry. rewrite Hinh, Hch.
  reflexivity.
Qed.

(** Conversely, every enumerated entry is the aggregate of a channel
    that some cast names. *)
Lemma entry_mentioned (casts : list Cast) (k : string) (a : Activity.t) :
  In (k, a) (Object_entries (countChannels casts)) ->
  exists ch,
    first_channel k casts = Some ch
    /\ a = {| Activity.count := Z.of_nat (occurrences k casts);
              Activity.imageUrl := channelImageUrl_of ch;
              Activity.name := Channel.name ch |}.
Proof.
  intros Hin. apply (proj1 (Object_entries_In _ _)) in Hin.
  apply In_own_get in Hin; [|apply (proj1 (countChannels_keys casts))].
  rewrite countChannels_entry in Hin. unfold expected_entry in Hin.
  destruct (inherited k); [discriminate|].
  destruct (first_channel k casts) as [ch|]; [|discriminate].
  exists ch. split; [reflexivity|]. congruence.
Qed.

Lemma selectChannel_maximum (address : string) (casts : list Cast) :
  existsb has_channel casts = true ->
  existsb shadowed casts = false ->
  selects_maximum (enumerated_before casts) address casts
                  (selectChannel address casts).
Proof.
  intros Hsome Hsh.
  (* some channel has an entry *)
  assert (Hne : Object_entries (countChannels casts) <> []).
  { apply existsb_exists in Hsome. destruct Hsome as [c [Hin Hc]].
    unfold has_channel in Hc. destruct (channel c) as [ch|] eqn:Hch;
      [|discriminate].
    assert (Hm : mentions (Channel.id ch) casts = true).
    { apply existsb_exists. exists c. split; [assumption|].
      unfold names. rewrite Hch. apply String.eqb_refl. }
    destruct (mentioned_entry casts (Channel.id ch)
                (mentions_not_shadowed _ _ Hsh Hm) Hm) as [ch0 [_ Hin0]].
    intros E. rewrite E in Hin0. contradiction. }
  destruct (pick_first_maximum _ Hne) as [l1 [[k a] [l2 [Hl [Hf [H1 H2]]]]]].
  assert (Hin : In (k, a) (Object_entries (countChannels casts))).
  { rewrite Hl. apply in_app_iff. right; left; reflexivity. }
  destruct (entry_mentioned _ _ _ Hin) as [ch [Hch Ha]].
  pose proof (first_channel_id _ _ _ Hch) as Hid.
  (* the entries are enumerated in order *)
  pose proof (countChannels_keys casts) as [Hnd Hsorted].
  pose proof (Object_entries_sorted _ _ Hnd Hsorted) as Horder.
  rewrite Hl in Horder.
  assert (Hcmp : forall id, mentions id casts = true ->
            exists a', In (id, a') (l1 ++ (k, a) :: l2)%list
                       /\ Activity.count a' = Z.of_nat (occurrences id casts)).
  { intros id Hm.
    destruct (mentioned_entry casts id (mentions_not_shadowed _ _ Hsh Hm) Hm)
      as [ch' [_ Hin']].
    rewrite Hl in Hin'. eexists. split; [exact Hin'|reflexivity]. }
  assert (Hcount : Activity.count a = Z.of_nat (occurrences k casts))
    by (rewrite Ha; reflexivity).
  exists ch. rewrite Hid. split; [assumption|]. split.
  - unfold selectChannel, mostActiveOf. rewrite Hf. unfold image_of.
    rewrite Ha. reflexivity.
  - split.
    + intros id Hm. destruct (Hcmp id Hm) as [a' [Hin' Hc']].
      apply in_app_iff in Hin'. destruct Hin' as [Hx|[Hx|Hx]].
      * specialize (H1 _ Hx). simpl in H1. lia.
      * inversion Hx; subst. lia.
      * specialize (H2 _ Hx). simpl in H2. lia.
    + intros id Hm Hneq Htie. destruct (Hcmp id Hm) as [a' [Hin' Hc']].
      apply in_app_iff in Hin'. destruct Hin' as [Hx|[Hx|Hx]].
      * specialize (H1 _ Hx). simpl in H1. lia.
      * inversion Hx; subst. congruence.
      * apply enum_rel_enumerated_before.
        apply (StronglySorted_later _ _ _ _ _ Horder Hx).
Qed.

(** What the resolver does once both remote calls have succeeded. *)
Lemma fetch_served (upstream : Upstream) (address : string)
      (casts : list Cast) :
  address <> "" -> serves upstream address casts ->
  outcome (fetchMostActiveChannelImage upstream (Str address))
  = if (length casts =? 0)%nat then Returned None
    else Returned (selectChannel address casts).
Proof.
  intros Hne [data [user [rest [feed [Hb [Hg [Hf Hc]]]]]]].
  unfold fetchMostActiveChannelImage. simpl.
  apply String.eqb_neq in Hne. rewrite Hne. simpl.
  rewrite Hb. unfold lookupFid, get. rewrite Hg, Hf. simpl.
  rewrite Hc. reflexivity.
Qed.

(** What the resolver does when one of the remote calls rejects. *)
Lemma fetch_rejected (upstream : Upstream) (address : string)
      (error : JS.Error) :
  address <> "" -> rejects upstream address error ->
  outcome (fetchMostActiveChannelImage upstream (Str address))
  = on_error address error.
Proof.
  intros Hne Hrej. unfold fetchMostActiveChannelImage. simpl.
  apply String.eqb_neq in Hne. rewrite Hne. simpl.
  destruct Hrej as [Hb|[data [user [rest [Hb [Hg Hf]]]]]].
  - rewrite Hb. reflexivity.
  - rewrite Hb. unfold lookupFid, get. rewrite Hg, Hf. reflexivity.
Qed.

Lemma mentions_not_indexed (casts : list Cast) (id : string) :
  existsb indexed casts = false -> mentions id casts = true ->
  array_index id = None.
Proof.
  intros Hix Hm. unfold mentions in Hm. apply existsb_exists in Hm.
  destruct Hm as [c [Hin Hc]]. apply names_channel in Hc.
  destruct Hc as [ch [Hch Hid]].
  destruct (array_index id) as [i|] eqn:E; [|reflexivity].
  assert (Hex : existsb indexed casts = true).
  { apply existsb_exists. exists c. split; [assumption|].
    unfold indexed. rewrite Hch, Hid, E. reflexivity. }
  congruence.
Qed.

(** Without array-index ids the enumeration order is the first-seen
    order. *)
Lemma selects_maximum_first_seen (address : string) (casts : list Cast)
      (result : option MostActiveChannelImage) :
  existsb indexed casts = false ->
  selects_maximum (enumerated_before casts) address casts result ->
  selects_maximum (first_seen_before casts) address casts result.
Proof.
  intros Hix [ch [Hch [Hres [Hmax Htie]]]].
  exists ch. split; [assumption|]. split; [assumption|].
  split; [assumption|].
  intros id Hm Hneq Heq. specialize (Htie id Hm Hneq Heq).
  unfold enumerated_before in Htie. unfold first_seen_before.
  assert (Hw : mentions (Channel.id ch) casts = true)
    by (apply mentions_first_channel; exists ch; assumption).
  rewrite (mentions_not_indexed _ _ Hix Hw) in Htie.
  rewrite (mentions_not_indexed _ _ Hix Hm) in Htie. assumption.
Qed.
End SelectFacts.

(** The sample upstream serves the sample address. *)
Lemma sample_serves (casts : list Cast) :
  serves (Sample.serving casts) Sample.address casts.
Proof.
  exists [(JS.asciiToLowerCase Sample.address, [Sample.user])], Sample.user, [],
         (Some {| casts := Some casts |}).
  repeat split; reflexivity.
Qed.


(* ================================================================= *)
(** ** Binary64 arithmetic around 670

    Facts about rounding, through the specification of the binary64
    operations: what is needed to bound [670 * r] and [670 / r]. *)

Section Binary64.
Open Scope Z_scope.
































End Binary64.

(* ================================================================= *)
(** ** The most active channel *)

(** C1, as the code has it. When both remote calls succeed, some cast has
    a channel and no channel-id is the name of an inherited property, the
    resolver returns the image and name stored for a channel of maximal
    count, taken from the first cast of that channel. Among channels tied
    at the maximum it returns the first in the order of [Object.entries]:
    channel-ids that are array indices come first, in ascending numeric
    order, and the other ids follow in the order of their first cast. When
    no channel-id is an array index, this is the channel whose first cast
    appeared earliest. *)
Theorem most_active_channel_selected :
  forall (upstream : Upstream) (address : string) (casts : list Cast),
    address <> "" ->
    serves upstream address casts ->
    existsb has_channel casts = true ->
    existsb shadowed casts = false ->
    exists result,
      outcome (fetchMostActiveChannelImage upstream (JS.Str address))
      = Returned result
      /\ selects_maximum (enumerated_before casts) address casts result
      /\ (existsb indexed casts = false ->
          selects_maximum (first_seen_before casts) address casts result).
Proof.
  intros upstream address casts Hne Hserves Hsome Hsh.
  exists (selectChannel address casts).
  rewrite (fetch_served _ _ _ Hne Hserves).
  destruct casts as [|c l]; [discriminate|].
  split; [reflexivity|].
  pose proof (selectChannel_maximum address (c :: l) Hsome Hsh) as Hsel.
  split; [assumption|].
  intros Hix. apply selects_maximum_first_seen; assumption.
Qed.

Lemma most_active_channel_selected_witness :
  exists result,
    outcome (fetchMostActiveChannelImage (Sample.serving Sample.three_two)
                                         (JS.Str Sample.address))
    = Returned result
    /\ selects_maximum (enumerated_before Sample.three_two)
                       Sample.address Sample.three_two result
    /\ (existsb indexed Sample.three_two = false ->
        selects_maximum (first_seen_before Sample.three_two)
                        Sample.address Sample.three_two result).
Proof.
  apply (most_active_channel_selected
           (Sample.serving Sample.three_two) Sample.address Sample.three_two).
  - discriminate.
  - apply sample_serves.
  - reflexivity.
  - reflexivity.
Defined.

(** Three casts in "a" and two in "b": the resolver returns the image
    of "a", although "b" was seen first. *)
Example three_beats_two :
  outcome (fetchMostActiveChannelImage (Sample.serving Sample.three_two)
                                       (JS.Str Sample.address))
  = Returned (Some {| channelImageUrl := "https://img/a";
                      address := Sample.address;
                      channelName := "A" |}).
Proof. vm_compute. reflexivity. Qed.

Lemma tied_outcome :
  outcome (fetchMostActiveChannelImage (Sample.serving Sample.tied_casts)
                                       (JS.Str Sample.address))
  = Returned (Some {| channelImageUrl := "https://img/1";
                      address := Sample.address;
                      channelName := "One" |}).
Proof. vm_compute. reflexivity. Qed.

(** C1, as stated, fails. Channels "base" and "1" have one cast each and
    "base" was seen first, yet the resolver returns the image of "1": the
    selection is not the first-seen channel among those tied. *)
Lemma tie_not_first_seen :
  ~ exists result,
      outcome (fetchMostActiveChannelImage (Sample.serving Sample.tied_casts)
                                           (JS.Str Sample.address))
      = Returned result
      /\ selects_maximum (first_seen_before Sample.tied_casts)
                         Sample.address Sample.tied_casts result.
Proof.
  intros [result [Hout [ch [Hfirst [Hres [_ Htie]]]]]].
  rewrite tied_outcome, Hres in Hout. clear Hres result.
  unfold image_of in Hout.
  inversion Hout as [[Hurl Hname]]; clear Hout.
  assert (Hid : Channel.id ch = "1").
  { unfold Sample.tied_casts in Hfirst.
    rewrite !first_channel_cons in Hfirst.
    change (names (Channel.id ch) (Sample.in_channel "base" "Base"))
      with ("base" =? Channel.id ch) in Hfirst.
    change (names (Channel.id ch) (Sample.in_channel "1" "One"))
      with ("1" =? Channel.id ch) in Hfirst.
    destruct ("base" =? Channel.id ch).
    - inversion Hfirst as [Hch]. rewrite <- Hch in Hname. discriminate.
    - destruct ("1" =? Channel.id ch) eqn:E2; [|discriminate].
      apply String.eqb_eq in E2. congruence. }
  rewrite Hid in Htie.
  specialize (Htie "base" eq_refl). 
  assert (Hfalse : first_seen_before Sample.tied_casts "1" "base" = true).
  { apply Htie; [discriminate|reflexivity]. }
  vm_compute in Hfalse. discriminate.
Qed.

(* ================================================================= *)
(** ** The aggregate, and the not-found results *)

(** For casts without shadowed channel-ids the aggregate is as the
    specification describes it: an entry exactly for the channels named,
    with the number of casts naming the channel and the image and name of
    the first of them. [countChannels_keys] adds that no channel has two
    entries. *)
Lemma countChannels_unshadowed (casts : list Cast) (id : string) :
  existsb shadowed casts = false ->
  JS.own_get (countChannels casts) id
  = match first_channel id casts with
    | Some ch =>
        Some {| Activity.count := Z.of_nat (occurrences id casts);
                Activity.imageUrl := channelImageUrl_of ch;
                Activity.name := Channel.name ch |}
    | None => None
    end.
Proof.
  intros Hsh. rewrite countChannels_entry. unfold expected_entry.
  destruct (first_channel id casts) as [ch|] eqn:Hch.
  - assert (Hm : mentions id casts = true)
      by (apply mentions_first_channel; exists ch; assumption).
    rewrite (mentions_not_shadowed _ _ Hsh Hm). reflexivity.
  - destruct (JS.inherited id); reflexivity.
Qed.

(** The stored image: [image_url] when it is a non-empty string,
    otherwise [imageUrl] when that is one, otherwise the empty string. *)
Lemma channelImageUrl_coalesce (ch : Channel.t) :
  channelImageUrl_of ch
  = match Channel.image_url ch, Channel.imageUrl ch with
    | Some u, other =>
        if u =? "" then match other with
                        | Some v => v
                        | None => ""
                        end
        else u
    | None, Some v => v
    | None, None => ""
    end.
Proof.
  unfold channelImageUrl_of, js_or.
  destruct (Channel.image_url ch) as [u|], (Channel.imageUrl ch) as [v|];
    try reflexivity.
  - destruct (u =? "") eqn:Eu; [|rewrite Eu; reflexivity].
    destruct (v =? "") eqn:Ev; [|reflexivity].
    apply String.eqb_eq in Ev. congruence.
  - destruct (u =? "") eqn:Eu; [reflexivity|rewrite Eu; reflexivity].
  - destruct (v =? "") eqn:Ev; [|reflexivity].
    apply String.eqb_eq in Ev. congruence.
Qed.

Lemma occurrences_positive (casts : list Cast) (id : string) :
  mentions id casts = true -> (1 <= occurrences id casts)%nat.
Proof.
  unfold mentions, occurrences. induction casts as [|c l IH]; simpl.
  - discriminate.
  - destruct (names id c); simpl; [lia|assumption].
Qed.

(** The resolver finds no channel exactly when every cast is
    uncounted. *)
Lemma selectChannel_none_iff (address : string) (casts : list Cast) :
  selectChannel address casts = None <-> forallb uncounted casts = true.
Proof.
  split.
  - intros Hnone. apply forallb_forall. intros c Hin.
    unfold uncounted, has_channel, shadowed.
    destruct (channel c) as [ch|] eqn:Hch; [simpl|reflexivity].
    destruct (JS.inherited (Channel.id ch)) eqn:Hinh; [reflexivity|].
    exfalso.
    assert (Hget : JS.own_get (countChannels casts) (Channel.id ch) <> None).
    { rewrite countChannels_entry. unfold expected_entry. rewrite Hinh.
      assert (Hm : mentions (Channel.id ch) casts = true).
      { apply existsb_exists. exists c. split; [assumption|].
        unfold names. rewrite Hch. apply String.eqb_refl. }
      apply mentions_first_channel in Hm. destruct Hm as [ch0 ->].
      discriminate. }
    destruct (JS.own_get (countChannels casts) (Channel.id ch)) as [a|] eqn:Ha;
      [|congruence].
    apply JSFacts.own_get_In in Ha.
    apply (proj2 (EntriesFacts.Object_entries_In _ _)) in Ha.
    assert (Hne : JS.Object_entries (countChannels casts) <> [])
      by (intros E; rewrite E in Ha; contradiction).
    destruct (pick_first_maximum _ Hne) as [l1 [e [l2 [_ [Hf _]]]]].
    unfold selectChannel, mostActiveOf in Hnone. rewrite Hf in Hnone.
    discriminate.
  - intros Hall.
    assert (Hempty : countChannels casts = []).
    { destruct (countChannels casts) as [|[k a] t] eqn:E; [reflexivity|].
      exfalso.
      assert (Hk : In k (map fst (countChannels casts)))
        by (rewrite E; left; reflexivity).
      apply countChannels_key_mentioned in Hk. destruct Hk as [Hm Hinh].
      apply existsb_exists in Hm. destruct Hm as [c [Hin Hc]].
      apply names_channel in Hc. destruct Hc as [ch [Hch Hid]].
      rewrite forallb_forall in Hall. specialize (Hall c Hin).
      unfold uncounted, has_channel, shadowed in Hall.
      rewrite Hch, Hid, Hinh in Hall. discriminate. }
    unfold selectChannel, mostActiveOf. rewrite Hempty. reflexivity.
Qed.

Lemma on_error_null (address : string) (error : JS.Error) :
  on_error address error = Returned None <-> http_status error = Some 404%Z.
Proof.
  unfold on_error, http_status.
  destruct (JS.isAxiosError error), (JS.response_status error) as [s|];
    try (split; discriminate).
  destruct (s =? 401)%Z eqn:E1; [split; [discriminate|intros H; inversion H; subst; discriminate]|].
  destruct (s =? 403)%Z eqn:E3; [split; [discriminate|intros H; inversion H; subst; discriminate]|].
  destruct (s =? 404)%Z eqn:E4.
  - apply Z.eqb_eq in E4. subst. split; reflexivity.
  - apply Z.eqb_neq in E4.
    destruct (s >=? 500)%Z; (split; [discriminate|intros H; inversion H; congruence]).
Qed.

Lemma lookupFid_first (data : option NeynarUserResponse) (key : string)
      (userFid : Z) :
  lookupFid data key = FirstFid userFid ->
  exists d user rest,
    data = Some d /\ JS.own_get d key = Some (user :: rest)
    /\ fid user = userFid.
Proof.
  unfold lookupFid, JS.get. destruct data as [d|]; [|discriminate].
  destruct (JS.own_get d key) as [[|user rest]|] eqn:Hg; try discriminate.
  - intros H; inversion H. exists d, user, rest.
    split; [reflexivity|]. split; [assumption|reflexivity].
  - destruct (JS.inherited key); [|discriminate].
    destruct (JS.inherited_length key) as [[| |]|]; discriminate.
Qed.

Lemma lookupFid_failed (data : option NeynarUserResponse) (key : string)
      (error : JS.Error) :
  lookupFid data key = Failed error -> http_status error = None.
Proof.
  unfold lookupFid, JS.get. destruct data as [d|]; [|discriminate].
  destruct (JS.own_get d key) as [[|user rest]|]; try discriminate.
  destruct (JS.inherited key); [|discriminate].
  destruct (JS.inherited_length key) as [[| |]|]; try discriminate;
    intros H; inversion H; reflexivity.
Qed.

(** The null results of the resolver, for a non-empty address. With
    [selectChannel_none_iff] these are the cases of the specification, but
    for the casts whose channel-id is shadowed, which do not count. *)
Lemma returns_null_iff (upstream : Upstream) (address : string) :
  address <> "" ->
  (outcome (fetchMostActiveChannelImage upstream (JS.Str address))
   = Returned None
   <-> not_found_case upstream address).
Proof.
  intros Hne. split.
  - unfold fetchMostActiveChannelImage. simpl.
    pose proof Hne as Hneb. apply String.eqb_neq in Hneb. rewrite Hneb. simpl.
    destruct (bulk_by_address upstream address) as [data|error] eqn:Hb; simpl.
    2:{ intros H. apply on_error_null in H. left. exists error.
        split; [left; assumption|assumption]. }
    destruct (lookupFid data (toLowerCase upstream address))
      as [|userFid|error] eqn:Hl; simpl.
    + intros _. right; left. exists data. split; assumption.
    + destruct (lookupFid_first _ _ _ Hl) as [d [user [rest [-> [Hg Hf]]]]].
      subst userFid.
      destruct (feed_user_popular upstream (fid user)) as [feed|error] eqn:Hp;
        simpl.
      * intros H. right; right. exists (castsOf feed). split.
        -- exists d, user, rest, feed. auto.
        -- destruct (castsOf feed) as [|c l]; [reflexivity|].
           simpl in H. inversion H as [Hsel].
           apply (selectChannel_none_iff address). assumption.
      * intros H. apply on_error_null in H. left. exists error.
        split; [right; exists d, user, rest; auto|assumption].
    + intros H. apply on_error_null in H.
      rewrite (lookupFid_failed _ _ _ Hl) in H. discriminate.
  - intros [[error [Hrej Hs]]|[[data [Hb Hl]]|[casts [Hserves Hall]]]].
    + rewrite (fetch_rejected _ _ _ Hne Hrej). apply on_error_null; assumption.
    + unfold fetchMostActiveChannelImage. simpl.
      apply String.eqb_neq in Hne. rewrite Hne. simpl.
      rewrite Hb, Hl. reflexivity.
    + rewrite (fetch_served _ _ _ Hne Hserves).
      destruct (length casts =? 0)%nat; [reflexivity|].
      f_equal. apply selectChannel_none_iff; assumption.
Qed.

(** C2, at the input where the code departs from it. One cast names the
    channel "constructor"; the scan reads [channelActivity["constructor"]]
    as the inherited [Object] function, creates no entry, and the aggregate
    stays empty. *)
Theorem constructor_channel_not_counted :
  mentions "constructor" Sample.constructor_casts = true
  /\ occurrences "constructor" Sample.constructor_casts = 1%nat
  /\ JS.get (@nil (string * Activity.t)) "constructor" = JS.Inherited
  /\ countChannels Sample.constructor_casts = []
  /\ JS.own_get (countChannels Sample.constructor_casts) "constructor" = None.
Proof. repeat split; reflexivity. Qed.

(** C3, at the input where the code departs from it. The identity is
    found and the feed holds one cast, which has a channel; the resolver
    still returns null, because the channel is called "constructor". *)
Theorem constructor_channel_not_found :
  serves (Sample.serving Sample.constructor_casts)
         Sample.address Sample.constructor_casts
  /\ existsb has_channel Sample.constructor_casts = true
  /\ outcome (fetchMostActiveChannelImage
                (Sample.serving Sample.constructor_casts)
                (JS.Str Sample.address))
     = Returned None.
Proof.
  split; [apply sample_serves|]. split; [reflexivity|].
  vm_compute. reflexivity.
Qed.

(** The same reading through the prototype, on the identity response:
    for the address "constructor" an answer without any entry is not taken
    as not found; the resolver throws. *)
Example constructor_address_throws :
  outcome (fetchMostActiveChannelImage
             {| toLowerCase := JS.asciiToLowerCase;
                bulk_by_address := fun _ => Resolved (Some []);
                feed_user_popular := fun _ => Resolved None |}
             (JS.Str "constructor"))
  = Threw (FetchFailed "constructor" (JS.TypeError_undefined "fid")).
Proof. vm_compute. reflexivity. Qed.

(* ================================================================= *)
(** ** Failures of the remote calls *)

(** C4, as the code has it. When a remote call rejects, the resolver
    looks only at the HTTP status of an axios error: 401 throws "API
    authentication failed", 403 "Access forbidden (403)", 500 and above
    "Neynar server error", and 404 returns null. Every other rejection,
    status 429 and errors without a status (whatever their message)
    included, throws the one catch-all error, whose message holds the
    address and the text of the cause. *)
Theorem remote_failure_outcome :
  forall (upstream : Upstream) (address : string) (error : JS.Error),
    address <> "" ->
    rejects upstream address error ->
    let result :=
      outcome (fetchMostActiveChannelImage upstream (JS.Str address)) in
    (http_status error = Some 401%Z -> result = Threw AuthenticationFailed)
    /\ (http_status error = Some 403%Z -> result = Threw AccessForbidden)
    /\ (http_status error = Some 404%Z -> result = Returned None)
    /\ (forall status, http_status error = Some status ->
                       (500 <= status)%Z -> result = Threw ServerError)
    /\ (http_status error = Some 429%Z ->
        result = Threw (FetchFailed address error))
    /\ (http_status error = None ->
        result = Threw (FetchFailed address error))
    /\ (forall status, http_status error = Some status ->
                       status <> 401%Z -> status <> 403%Z ->
                       status <> 404%Z -> (status < 500)%Z ->
                       result = Threw (FetchFailed address error))
    /\ error_message (FetchFailed address error)
       = "Failed to fetch most active channel image for address "
         ++ address ++ ": " ++ JS.toString error
    /\ kind_of (FetchFailed address error) = UpstreamUnavailable.
Proof.
  intros upstream address error Hne Hrej result. subst result.
  rewrite (fetch_rejected _ _ _ Hne Hrej).
  unfold on_error, http_status.
  destruct (JS.isAxiosError error), (JS.response_status error) as [s|];
    (repeat split; try discriminate; try reflexivity;
     try (intros H; inversion H; subst; reflexivity)).
  - intros status H Hge. inversion H; subst.
    destruct (status =? 401)%Z eqn:E1; [lia|].
    destruct (status =? 403)%Z eqn:E3; [lia|].
    destruct (status =? 404)%Z eqn:E4; [lia|].
    destruct (status >=? 500)%Z eqn:E5; [reflexivity|lia].
  - intros status H H1 H3 H4 Hlt. inversion H; subst.
    destruct (status =? 401)%Z eqn:E1; [lia|].
    destruct (status =? 403)%Z eqn:E3; [lia|].
    destruct (status =? 404)%Z eqn:E4; [lia|].
    destruct (status >=? 500)%Z eqn:E5; [lia|reflexivity].
Qed.

Lemma remote_failure_outcome_witness :
  let upstream := Sample.failing (Sample.status_error 429) in
  let error := Sample.status_error 429 in
  let result :=
    outcome (fetchMostActiveChannelImage upstream (JS.Str Sample.address)) in
  (http_status error = Some 401%Z -> result = Threw AuthenticationFailed)
  /\ (http_status error = Some 403%Z -> result = Threw AccessForbidden)
  /\ (http_status error = Some 404%Z -> result = Returned None)
  /\ (forall status, http_status error = Some status ->
                     (500 <= status)%Z -> result = Threw ServerError)
  /\ (http_status error = Some 429%Z ->
      result = Threw (FetchFailed Sample.address error))
  /\ (http_status error = None ->
      result = Threw (FetchFailed Sample.address error))
  /\ (forall status, http_status error = Some status ->
                     status <> 401%Z -> status <> 403%Z ->
                     status <> 404%Z -> (status < 500)%Z ->
                     result = Threw (FetchFailed Sample.address error))
  /\ error_message (FetchFailed Sample.address error)
     = "Failed to fetch most active channel image for address "
       ++ Sample.address ++ ": " ++ JS.toString error
  /\ kind_of (FetchFailed Sample.address error) = UpstreamUnavailable.
Proof.
  apply (remote_failure_outcome
           (Sample.failing (Sample.status_error 429))
           Sample.address (Sample.status_error 429)).
  - discriminate.
  - left. reflexivity.
Defined.

(** C4, as stated, fails. The identity lookup is answered with status
    429; the resolver throws the catch-all error, the same it throws when
    the call times out, and not an error of the kind RateLimited. *)
Lemma status_429_not_rate_limited :
  ~ exists error,
      outcome (fetchMostActiveChannelImage
                 (Sample.failing (Sample.status_error 429))
                 (JS.Str Sample.address))
      = Threw error
      /\ kind_of error = RateLimited.
Proof.
  intros [error [Hout Hkind]].
  assert (Hrun :
    outcome (fetchMostActiveChannelImage
               (Sample.failing (Sample.status_error 429))
               (JS.Str Sample.address))
    = Threw (FetchFailed Sample.address (Sample.status_error 429)))
    by (vm_compute; reflexivity).
  rewrite Hrun in Hout. inversion Hout; subst error. discriminate Hkind.
Qed.

(** A rejection whose message says "Rate limit exceeded" is wrapped in
    the same way. *)
Example rate_limit_message_wrapped :
  let error := {| JS.isAxiosError := true;
                  JS.name := "AxiosError";
                  JS.message := "Rate limit exceeded";
                  JS.response_status := None |} in
  outcome (fetchMostActiveChannelImage (Sample.failing error)
                                       (JS.Str Sample.address))
  = Threw (FetchFailed Sample.address error).
Proof. vm_compute. reflexivity. Qed.

(* ================================================================= *)
(** ** The handler's answers to a failed resolver *)

(** The handler tells the failures apart by the text of the message. *)
Lemma respondToError_by_message (world : World) (error : ResolverError) :
  let message := error_message error in
  let response := respondToError world error in
  (JS.includes message "Rate limit exceeded" || JS.includes message "429"
   = true ->
   statusCode response = 429%Z
   /\ headers response
      = [ ("Retry-After", Text "60");
          ("X-RateLimit-Reset", IsoDate (now world + 60000)) ]
   /\ exists error_text message_text,
        body response
        = JsonBody [ ("error", JString error_text);
                     ("retryAfter", JNumber 60);
                     ("message", JString message_text) ])
  /\ (JS.includes message "Rate limit exceeded" || JS.includes message "429"
      = false ->
      JS.includes message "Invalid address" = true ->
      statusCode response = 400%Z
      /\ exists message_text,
           body response
           = JsonBody [ ("error", JString "Invalid Ethereum address provided");
                        ("message", JString message_text) ])
  /\ (JS.includes message "Rate limit exceeded" || JS.includes message "429"
      = false ->
      JS.includes message "Invalid address" = false ->
      statusCode response = 503%Z
      /\ headers response = [ ("Retry-After", Text "30") ]).
Proof.
  cbv zeta. unfold respondToError, error_response_status.
  rewrite orb_false_r.
  destruct (JS.includes (error_message error) "Rate limit exceeded"
            || JS.includes (error_message error) "429");
    [|destruct (JS.includes (error_message error) "Invalid address")];
    (split; [|split]); intros; try discriminate; simpl;
    repeat split; eauto.
Qed.

(** The errors with a fixed message are answered as the specification
    says: the invalid address with 400, the others with 503. *)
Lemma fixed_errors_answered (world : World) :
  statusCode (respondToError world InvalidAddress) = 400%Z
  /\ statusCode (respondToError world AuthenticationFailed) = 503%Z
  /\ statusCode (respondToError world AccessForbidden) = 503%Z
  /\ statusCode (respondToError world ServerError) = 503%Z.
Proof. repeat split; vm_compute; reflexivity. Qed.

(** C5, at the input where the code departs from it. The address is a
    well-formed Ethereum address whose digits contain "429" and the
    identity lookup times out. The resolver throws its catch-all error, a
    failure that is neither RateLimited nor InvalidInput; its message holds
    the address, the handler finds "429" in it and answers 429 "Rate limit
    exceeded" with Retry-After: 60 instead of 503 with Retry-After: 30. *)
Theorem timeout_answered_as_rate_limit :
  let world := SampleWorld.world (Sample.failing Sample.timeout_error) in
  outcome (fetchMostActiveChannelImage (upstream world)
                                       (JS.Str SampleWorld.address_429))
  = Threw (FetchFailed SampleWorld.address_429 Sample.timeout_error)
  /\ http_status Sample.timeout_error = None
  /\ JS.includes (JS.toString Sample.timeout_error) "429" = false
  /\ JS.includes (JS.toString Sample.timeout_error) "Rate limit exceeded"
     = false
  /\ handler world (SampleWorld.request SampleWorld.address_429)
     = {| statusCode := 429;
          headers := [ ("Retry-After", Text "60");
                       ("X-RateLimit-Reset", IsoDate (now world + 60000)) ];
          body := JsonBody
            [ ("error",
               JString "Rate limit exceeded. Please try again later.");
              ("retryAfter", JNumber 60);
              ("message", JString
                 "Too many requests to external API. Please wait before retrying.") ] |}.
Proof. repeat split; vm_compute; reflexivity. Qed.

(** The same timeout for an address without "429" is answered 503. *)
Example timeout_answered_unavailable :
  let world := SampleWorld.world (Sample.failing Sample.timeout_error) in
  statusCode (handler world (SampleWorld.request Sample.address)) = 503%Z
  /\ headers (handler world (SampleWorld.request Sample.address))
     = [ ("Retry-After", Text "30") ].
Proof. split; vm_compute; reflexivity. Qed.

(** An upstream answer with status 429 is answered 429. *)
Example upstream_429_answered :
  let world :=
    SampleWorld.world (Sample.failing (Sample.status_error 429)) in
  statusCode (handler world (SampleWorld.request Sample.address)) = 429%Z
  /\ headers (handler world (SampleWorld.request Sample.address))
     = [ ("Retry-After", Text "60");
         ("X-RateLimit-Reset", IsoDate (now world + 60000)) ].
Proof. split; vm_compute; reflexivity. Qed.

(* ================================================================= *)
(** ** Rendering *)

Section RenderFacts.
Open Scope float_scope.

Lemma drawArtwork_painted (canvas : Canvas.t) (artworkImage : Canvas.Image) :
  let x := (Canvas.canvas_width canvas - fst (displaySize artworkImage)) / 2
           + shiftRight in
  let y := (Canvas.canvas_height canvas - snd (displaySize artworkImage)) / 2
           - shiftUp in
  Canvas.painted (drawArtwork canvas artworkImage)
  = (Canvas.painted canvas
     ++ [ Canvas.ImageIn artworkImage x y
            (fst (displaySize artworkImage)) (snd (displaySize artworkImage));
          Canvas.StrokedRect "rgba(255, 255, 255, 0.3)" 2
            (x - 2) (y - 2)
            (fst (displaySize artworkImage) + 4)
            (snd (displaySize artworkImage) + 4) ])%list.
Proof.
  unfold drawArtwork. destruct (displaySize artworkImage) as [w h].
  simpl. rewrite <- app_assoc. reflexivity.
Qed.

(** A PNG comes only out of [render]. *)
Lemma handler_png (world : World) (req : VercelRequest) (canvas : Canvas.t) :
  body (handler world req) = PngBuffer canvas ->
  exists templateImage found,
    loadImage world TemplateLoad (templatePath world) = Some templateImage
    /\ canvas
       = match chooseArtwork world found with
         | Some artworkImage =>
             drawArtwork (templateCanvas templateImage) artworkImage
         | None => templateCanvas templateImage
         end.
Proof.
  unfold handler.
  destruct (negb (JS.truthy (query_address req))); [discriminate|].
  destruct (loadImage world TemplateLoad (templatePath world))
    as [templateImage|]; [|discriminate].
  destruct (outcome (fetchMostActiveChannelImage (upstream world)
                                                 (query_address req)))
    as [found|error].
  - unfold render. simpl. intros H. inversion H.
    exists templateImage, found. split; reflexivity.
  - unfold respondToError.
    destruct (_ || _); [discriminate|].
    destruct (JS.includes _ _); discriminate.
Qed.

(** The canvas after the artwork has been drawn on the template, written
    out. *)
Lemma drawArtwork_template (templateImage image : Canvas.Image) :
  let cw := Canvas.width templateImage in
  let ch := Canvas.height templateImage in
  let r := Canvas.width image / Canvas.height image in
  let dw := if 670 <? 670 / r then 670 * r else 670 in
  let dh := if 670 <? 670 / r then 670 else 670 / r in
  let x := (cw - dw) / 2 + shiftRight in
  let y := (ch - dh) / 2 - shiftUp in
  drawArtwork (templateCanvas templateImage) image
  = {| Canvas.canvas_width := cw;
       Canvas.canvas_height := ch;
       Canvas.strokeStyle := "rgba(255, 255, 255, 0.3)";
       Canvas.lineWidth := 2;
       Canvas.painted :=
         [ Canvas.ImageAt templateImage 0 0;
           Canvas.ImageIn image x y dw dh;
           Canvas.StrokedRect "rgba(255, 255, 255, 0.3)" 2
             (x - 2) (y - 2) (dw + 4) (dh + 4) ] |}.
Proof.
  cbv zeta. unfold drawArtwork, displaySize, maxWidth, maxHeight.
  destruct (670 <? 670 / (Canvas.width image / Canvas.height image));
    reflexivity.
Qed.
End RenderFacts.

Section NotFound.
Open Scope float_scope.
#[local] Set Warnings "-inexact-float".

(** C6. For a request whose address is present, once the template has
    loaded (the resolver is called only then) and the resolver returns
    null, in particular when the identity lookup is answered 404, the
    handler answers 200 with Content-Type image/png, Cache-Control
    public, max-age=300, X-Content-Type-Options nosniff and X-Frame-Options
    DENY, and the PNG of a canvas of the size of the template on which the
    template is painted at the origin and then, when the placeholder loads,
    the placeholder image, fitted into 670 by 670 around the shifted centre,
    with its border; when the placeholder does not load only the template
    is painted. *)
Theorem not_found_renders_placeholder :
  forall (world : World) (req : VercelRequest) (templateImage : Canvas.Image),
    JS.truthy (query_address req) = true ->
    loadImage world TemplateLoad (templatePath world) = Some templateImage ->
    (outcome (fetchMostActiveChannelImage (upstream world) (query_address req))
     = Returned None
     \/ exists address error,
          query_address req = JS.Str address
          /\ bulk_by_address (upstream world) address = Rejected error
          /\ http_status error = Some 404%Z) ->
    let cw := Canvas.width templateImage in
    let ch := Canvas.height templateImage in
    handler world req
    = {| statusCode := 200;
         headers := [ ("Content-Type", Text "image/png");
                      ("Cache-Control", Text "public, max-age=300");
                      ("X-Content-Type-Options", Text "nosniff");
                      ("X-Frame-Options", Text "DENY") ];
         body := PngBuffer
           match loadImage world PlaceholderLoad placeholderUrl with
           | Some placeholder =>
               let r := Canvas.width placeholder / Canvas.height placeholder in
               let dw := if 670 <? 670 / r then 670 * r else 670 in
               let dh := if 670 <? 670 / r then 670 else 670 / r in
               let x := (cw - dw) / 2 + 0.1 in
               let y := (ch - dh) / 2 - 28.5 in
               {| Canvas.canvas_width := cw;
                  Canvas.canvas_height := ch;
                  Canvas.strokeStyle := "rgba(255, 255, 255, 0.3)";
                  Canvas.lineWidth := 2;
                  Canvas.painted :=
                    [ Canvas.ImageAt templateImage 0 0;
                      Canvas.ImageIn placeholder x y dw dh;
                      Canvas.StrokedRect "rgba(255, 255, 255, 0.3)" 2
                        (x - 2) (y - 2) (dw + 4) (dh + 4) ] |}
           | None =>
               {| Canvas.canvas_width := cw;
                  Canvas.canvas_height := ch;
                  Canvas.strokeStyle := "#000000";
                  Canvas.lineWidth := 1;
                  Canvas.painted := [ Canvas.ImageAt templateImage 0 0 ] |}
           end |}.
Proof.
  intros world req templateImage Hpresent Htemplate Hnull.
  assert (Hout : outcome (fetchMostActiveChannelImage (upstream world)
                                                      (query_address req))
                 = Returned None).
  { destruct Hnull as [H|[address [error [Haddr [Hrej Hstatus]]]]];
      [assumption|].
    rewrite Haddr in *.
    assert (Hne : address <> "").
    { intros ->. simpl in Hpresent. discriminate. }
    rewrite (fetch_rejected _ _ _ Hne (or_introl Hrej)).
    unfold http_status in Hstatus. unfold on_error.
    destruct (JS.isAxiosError error); [|discriminate].
    rewrite Hstatus. reflexivity. }
  cbv zeta. unfold handler. rewrite Hpresent, Htemplate, Hout. simpl.
  unfold render, chooseArtwork. simpl.
  fold (templateCanvas templateImage).
  destruct (loadImage world PlaceholderLoad placeholderUrl) as [placeholder|];
    [|reflexivity].
  rewrite drawArtwork_template. reflexivity.
Qed.

Lemma not_found_renders_placeholder_witness :
  handler SampleRender.world_404 (SampleWorld.request Sample.address)
  = {| statusCode := 200;
       headers := [ ("Content-Type", Text "image/png");
                    ("Cache-Control", Text "public, max-age=300");
                    ("X-Content-Type-Options", Text "nosniff");
                    ("X-Frame-Options", Text "DENY") ];
       body := PngBuffer
         {| Canvas.canvas_width := 1000;
            Canvas.canvas_height := 1000;
            Canvas.strokeStyle := "rgba(255, 255, 255, 0.3)";
            Canvas.lineWidth := 2;
            Canvas.painted :=
              [ Canvas.ImageAt SampleWorld.template 0 0;
                Canvas.ImageIn SampleWorld.placeholder
                  ((1000 - 670) / 2 + 0.1) ((1000 - 670) / 2 - 28.5) 670 670;
                Canvas.StrokedRect "rgba(255, 255, 255, 0.3)" 2
                  ((1000 - 670) / 2 + 0.1 - 2) ((1000 - 670) / 2 - 28.5 - 2)
                  (670 + 4) (670 + 4) ] |} |}.
Proof.
  apply (not_found_renders_placeholder
           SampleRender.world_404 (SampleWorld.request Sample.address)
           SampleWorld.template).
  - reflexivity.
  - reflexivity.
  - right. exists Sample.address, (Sample.status_error 404).
    split; [reflexivity|]. split; reflexivity.
Defined.
End NotFound.

(** C8, as the code has it. Whenever the handler answers with an image,
    every artwork it drew at (x, y) with size (w, h) is followed by a
    rectangle stroked in rgba(255, 255, 255, 0.3) with line width 2 from
    (x - 2, y - 2) with size (w + 4, h + 4): the rectangle lies 2 units
    outside the artwork on each side. Nothing else is painted on the
    template. *)
Theorem artwork_border_outset :
  forall (world : World) (req : VercelRequest) (canvas : Canvas.t)
         (artworkImage : Canvas.Image) (x y w h : float),
    body (handler world req) = PngBuffer canvas ->
    In (Canvas.ImageIn artworkImage x y w h) (Canvas.painted canvas) ->
    exists templateImage,
      Canvas.painted canvas
      = [ Canvas.ImageAt templateImage 0 0;
          Canvas.ImageIn artworkImage x y w h;
          Canvas.StrokedRect "rgba(255, 255, 255, 0.3)" 2
            (x - 2) (y - 2) (w + 4) (h + 4) ].
Proof.
  intros world req canvas artworkImage x y w h Hbody Hin.
  destruct (handler_png _ _ _ Hbody) as [templateImage [found [_ Hcanvas]]].
  exists templateImage. subst canvas.
  destruct (chooseArtwork world found) as [image|].
  - rewrite drawArtwork_painted in *. cbv zeta in *. simpl in *.
    destruct Hin as [Hin|[Hin|[Hin|[]]]]; try discriminate.
    inversion Hin; subst. reflexivity.
  - simpl in Hin. destruct Hin as [Hin|[]]. discriminate.
Qed.

Lemma artwork_border_outset_witness :
  exists templateImage,
    Canvas.painted SampleRender.canvas
    = [ Canvas.ImageAt templateImage 0 0;
        Canvas.ImageIn SampleWorld.wide_artwork
          ((1000 - 670) / 2 + shiftRight) ((1000 - 335) / 2 - shiftUp)
          670 335;
        Canvas.StrokedRect "rgba(255, 255, 255, 0.3)" 2
          ((1000 - 670) / 2 + shiftRight - 2) ((1000 - 335) / 2 - shiftUp - 2)
          (670 + 4) (335 + 4) ]%float.
Proof.
  apply (artwork_border_outset
           SampleRender.world (SampleWorld.request Sample.address)
           SampleRender.canvas SampleWorld.wide_artwork).
  - vm_compute. reflexivity.
  - vm_compute. right. left. reflexivity.
Defined.

(** C8, as stated, fails. The 800 by 400 channel image is drawn at
    (165.1, 304) with size 670 by 335; no rectangle inset by 2 units from
    that box, from (167.1, 306) with size 666 by 331, is stroked. *)
Lemma border_not_inset :
  exists (x y w h : float),
    In (Canvas.ImageIn SampleWorld.wide_artwork x y w h)
       (Canvas.painted SampleRender.canvas)
    /\ ~ In (Canvas.StrokedRect "rgba(255, 255, 255, 0.3)" 2
               (x + 2) (y + 2) (w - 4) (h - 4))%float
            (Canvas.painted SampleRender.canvas).
Proof.
  exists ((1000 - 670) / 2 + shiftRight)%float,
         ((1000 - 335) / 2 - shiftUp)%float, 670%float, 335%float.
  split.
  - vm_compute. right. left. reflexivity.
  - vm_compute. intros [H|[H|[H|[]]]]; discriminate.
Qed.

(** The display size of a 2:1 image is 670 by 335, and it is drawn on the
    1000 by 1000 template 0.1 to the right of and 28.5 above the centred
    position, in binary64 arithmetic. *)
Example display_two_to_one :
  displaySize SampleWorld.wide_artwork = (670, 335)%float
  /\ Canvas.painted SampleRender.canvas
     = [ Canvas.ImageAt SampleWorld.template 0 0;
         Canvas.ImageIn SampleWorld.wide_artwork
           ((1000 - 670) / 2 + shiftRight) ((1000 - 335) / 2 - shiftUp)
           670 335;
         Canvas.StrokedRect "rgba(255, 255, 255, 0.3)" 2
           ((1000 - 670) / 2 + shiftRight - 2)
           ((1000 - 335) / 2 - shiftUp - 2)
           674 339 ]%float.
Proof. split; vm_compute; reflexivity. Qed.

(* ================================================================= *)
(** ** The address check of the resolver *)

Lemma on_error_not_invalid (address : string) (error : JS.Error) :
  on_error address error <> Threw InvalidAddress.
Proof.
  unfold on_error.
  destruct (JS.isAxiosError error), (JS.response_status error) as [s|];
    try discriminate.
  destruct (s =? 401)%Z; [discriminate|].
  destruct (s =? 403)%Z; [discriminate|].
  destruct (s =? 404)%Z; [discriminate|].
  destruct (s >=? 500)%Z; discriminate.
Qed.

(** C9. The resolver throws "Invalid address provided" exactly when the
    address is the empty string or not a string, and then makes no remote
    call. Every non-empty string, of whatever format, passes the check: the
    first thing the resolver does with it is the identity lookup, with the
    address as given. *)
Theorem invalid_input_exactly :
  forall (upstream : Upstream) (address : JS.value),
    (outcome (fetchMostActiveChannelImage upstream address)
     = Threw InvalidAddress
     <-> empty_or_not_string address)
    /\ (empty_or_not_string address ->
        calls (fetchMostActiveChannelImage upstream address) = [])
    /\ (forall s, address = JS.Str s -> s <> "" ->
                  hd_error (calls (fetchMostActiveChannelImage upstream address))
                  = Some (GetBulkByAddress [s])).
Proof.
  intros upstream address.
  destruct address as [| |b|n|s|l];
    try (split; [split; [intros _; exact I|intros _; reflexivity]|];
         split; [intros _; reflexivity|intros s Hs; discriminate Hs]).
  - (* a boolean *)
    split; [split; [intros _; exact I|intros _]|].
    + unfold fetchMostActiveChannelImage. simpl. rewrite orb_true_r.
      reflexivity.
    + split; [intros _|intros s Hs; discriminate Hs].
      unfold fetchMostActiveChannelImage. simpl. rewrite orb_true_r.
      reflexivity.
  - (* a number *)
    split; [split; [intros _; exact I|intros _]|].
    + unfold fetchMostActiveChannelImage. simpl. rewrite orb_true_r.
      reflexivity.
    + split; [intros _|intros s Hs; discriminate Hs].
      unfold fetchMostActiveChannelImage. simpl. rewrite orb_true_r.
      reflexivity.
  - (* a string *)
    unfold empty_or_not_string, fetchMostActiveChannelImage. simpl.
    destruct (s =? "") eqn:Hs; simpl.
    + apply String.eqb_eq in Hs.
      split; [split; [intros _; assumption|reflexivity]|].
      split; [reflexivity|]. intros s' H Hne. inversion H; subst. congruence.
    + apply String.eqb_neq in Hs.
      split; [split; [|intros H; contradiction]|].
      * intros H. exfalso. revert H.
        destruct (bulk_by_address upstream s) as [data|error]; simpl;
          [|apply on_error_not_invalid].
        destruct (lookupFid data (toLowerCase upstream s)) as [|userFid|error];
          simpl; [discriminate| |apply on_error_not_invalid].
        destruct (feed_user_popular upstream userFid) as [feed|error]; simpl;
          [|apply on_error_not_invalid].
        destruct (length (castsOf feed) =? 0)%nat; discriminate.
      * split; [intros H; contradiction|].
        intros s' H _. inversion H; subst s'.
        destruct (bulk_by_address upstream s) as [data|error]; simpl;
          [|reflexivity].
        destruct (lookupFid data (toLowerCase upstream s)) as [|userFid|error];
          simpl; try reflexivity.
        destruct (feed_user_popular upstream userFid); reflexivity.
Qed.

Lemma invalid_input_exactly_witness :
  let upstream := Sample.serving Sample.three_two in
  (outcome (fetchMostActiveChannelImage upstream (JS.Str "not-an-address"))
   = Threw InvalidAddress
   <-> empty_or_not_string (JS.Str "not-an-address"))
  /\ (empty_or_not_string (JS.Str "not-an-address") ->
      calls (fetchMostActiveChannelImage upstream (JS.Str "not-an-address"))
      = [])
  /\ (forall s, JS.Str "not-an-address" = JS.Str s -> s <> "" ->
                hd_error (calls (fetchMostActiveChannelImage
                                   upstream (JS.Str "not-an-address")))
                = Some (GetBulkByAddress [s])).
Proof.
  apply (invalid_input_exactly (Sample.serving Sample.three_two)
                               (JS.Str "not-an-address")).
Defined.
(* ================================================================= *)
(** ** Fitting the artwork into the 670 by 670 box *)

Section Fitting.
Open Scope float_scope.
#[local] Set Warnings "-inexact-float".



End Fitting.

(* ================================================================= *)
(** ** More on the resolver *)

Section ResolverMore.
Import JS JSFacts.

Lemma tally_uncounted (l : list Cast) (c : Cast) :
  uncounted c = true -> tally (countChannels l) c = countChannels l.
Proof.
  intros Hun. pose proof (tally_step (countChannels l) c) as Hstep.
  unfold uncounted, has_channel, shadowed in Hun.
  destruct (channel c) as [ch|]; [|assumption].
  simpl in Hun. cbv zeta in Hstep. rewrite Hun in Hstep. apply Hstep.
  rewrite countChannels_entry. unfold expected_entry. rewrite Hun.
  reflexivity.
Qed.

(** Dropping casts that do not count leaves the aggregate as it is. *)
Lemma countChannels_filter (keep : Cast -> bool) (casts : list Cast) :
  (forall c, keep c = false -> uncounted c = true) ->
  countChannels (filter keep casts) = countChannels casts.
Proof.
  intros Hkeep. induction casts as [|c l IH] using rev_ind; [reflexivity|].
  rewrite filter_app, !countChannels_snoc. simpl.
  destruct (keep c) eqn:Hk; simpl.
  - rewrite countChannels_snoc, IH. reflexivity.
  - rewrite app_nil_r, IH. symmetry. apply tally_uncounted, Hkeep, Hk.
Qed.

Lemma countChannels_counted (casts : list Cast) :
  countChannels (filter counted casts) = countChannels casts.
Proof.
  apply countChannels_filter. intros c Hc. unfold counted in Hc.
  apply negb_false_iff in Hc. assumption.
Qed.

Lemma selectChannel_counted (address : string) (casts : list Cast) :
  selectChannel address (filter counted casts) = selectChannel address casts.
Proof. unfold selectChannel. rewrite countChannels_counted. reflexivity. Qed.

Lemma names_counted (id : string) (c : Cast) :
  inherited id = false -> names id c = true -> counted c = true.
Proof.
  intros Hinh Hn. apply names_channel in Hn. destruct Hn as [ch [Hch Hid]].
  unfold counted, uncounted, has_channel, shadowed.
  rewrite Hch, Hid, Hinh. reflexivity.
Qed.

Lemma filter_names_counted (id : string) (casts : list Cast) :
  inherited id = false ->
  filter (names id) (filter counted casts) = filter (names id) casts.
Proof.
  intros Hinh. induction casts as [|c l IH]; simpl; [reflexivity|].
  destruct (names id c) eqn:Hn.
  - rewrite (names_counted _ _ Hinh Hn). simpl. rewrite Hn, IH. reflexivity.
  - destruct (counted c); simpl; [rewrite Hn|]; assumption.
Qed.

Lemma find_names_counted (id : string) (casts : list Cast) :
  inherited id = false ->
  find (names id) (filter counted casts) = find (names id) casts.
Proof.
  intros Hinh. induction casts as [|c l IH]; simpl; [reflexivity|].
  destruct (names id c) eqn:Hn.
  - rewrite (names_counted _ _ Hinh Hn). simpl. rewrite Hn. reflexivity.
  - destruct (counted c); simpl; [rewrite Hn|]; assumption.
Qed.

Lemma counted_not_shadowed (casts : list Cast) :
  existsb shadowed (filter counted casts) = false.
Proof.
  induction casts as [|c l IH]; simpl; [reflexivity|].
  destruct (counted c) eqn:Hc; [|assumption]. simpl. rewrite IH.
  unfold counted, uncounted in Hc.
  destruct (shadowed c); [|reflexivity].
  rewrite orb_true_r in Hc. discriminate.
Qed.

Lemma counted_has_channel (c : Cast) :
  counted c = true -> has_channel c = true.
Proof.
  unfold counted, uncounted. destruct (has_channel c); [reflexivity|].
  discriminate.
Qed.

Lemma on_error_not_found_something (address : string) (error : Error)
      (r : MostActiveChannelImage) :
  on_error address error <> Returned (Some r).
Proof.
  unfold on_error.
  destruct (isAxiosError error), (response_status error) as [s|];
    try discriminate.
  destruct (s =? 401)%Z; [discriminate|].
  destruct (s =? 403)%Z; [discriminate|].
  destruct (s =? 404)%Z; [discriminate|].
  destruct (s >=? 500)%Z; discriminate.
Qed.

(** A channel is returned only after both remote calls succeeded. *)
Lemma fetch_found (upstream : Upstream) (address : value)
      (r : MostActiveChannelImage) :
  outcome (fetchMostActiveChannelImage upstream address) = Returned (Some r) ->
  exists a casts,
    address = Str a /\ a <> "" /\ serves upstream a casts
    /\ selectChannel a casts = Some r.
Proof.
  unfold fetchMostActiveChannelImage.
  destruct (negb (truthy address) || negb (typeof address =? "string"))
    eqn:Hcheck; [discriminate|].
  destruct address as [| |b|n|a|l]; try discriminate.
  simpl in Hcheck. rewrite orb_false_r in Hcheck.
  apply negb_false_iff, negb_true_iff, String.eqb_neq in Hcheck.
  destruct (bulk_by_address upstream a) as [data|error] eqn:Hb; simpl;
    [|intros H; exfalso; exact (on_error_not_found_something _ _ _ H)].
  destruct (lookupFid data (toLowerCase upstream a)) as [|userFid|error] eqn:Hl; simpl;
    [discriminate| |intros H; exfalso;
                     exact (on_error_not_found_something _ _ _ H)].
  destruct (lookupFid_first _ _ _ Hl) as [d [user [rest [-> [Hg Hf]]]]].
  subst userFid.
  destruct (feed_user_popular upstream (fid user)) as [feed|error] eqn:Hp;
    simpl; [|intros H; exfalso; exact (on_error_not_found_something _ _ _ H)].
  destruct (length (castsOf feed) =? 0)%nat; [discriminate|].
  intros H. injection H as Hsel. exists a, (castsOf feed).
  split; [reflexivity|]. split; [assumption|]. split; [|assumption].
  exists d, user, rest, feed. auto.
Qed.

Lemma lookupFid_none_iff (data : option NeynarUserResponse) (key : string) :
  lookupFid data key = NoIdentity <-> no_identity data key.
Proof.
  unfold lookupFid, no_identity, get. destruct data as [d|]; [|tauto].
  destruct (own_get d key) as [[|user rest]|].
  - tauto.
  - split; discriminate.
  - destruct (inherited key); [|tauto].
    destruct (inherited_length key) as [[| |]|];
      split; try discriminate; try tauto;
      intros [H|H]; discriminate.
Qed.

Lemma total_count_snoc (act : ChannelActivity) (e : string * Activity.t) :
  total_count (act ++ [e])%list
  = (total_count act + Activity.count (snd e))%Z.
Proof.
  unfold total_count. induction act as [|x t IH]; simpl; [lia|].
  rewrite IH. lia.
Qed.

Lemma total_count_set (act : ChannelActivity) (k : string)
      (a a' : Activity.t) :
  own_get act k = Some a ->
  total_count (own_set act k a')
  = (total_count act - Activity.count a + Activity.count a')%Z.
Proof.
  unfold total_count. induction act as [|[k0 v0] t IH]; simpl;
    [discriminate|].
  destruct (k0 =? k); simpl.
  - intros H; inversion H; subst. lia.
  - intros H. rewrite (IH H). lia.
Qed.

Lemma first_channel_In (id : string) (casts : list Cast) (ch : Channel.t) :
  first_channel id casts = Some ch ->
  exists cast, In cast casts /\ channel cast = Some ch.
Proof.
  unfold first_channel. destruct (find (names id) casts) as [cast|] eqn:E;
    [|discriminate].
  apply find_some in E. intros H. exists cast. tauto.
Qed.

Lemma occurrences_cons (id : string) (c : Cast) (l : list Cast) :
  occurrences id (c :: l)
  = ((if names id c then 1 else 0) + occurrences id l)%nat.
Proof. unfold occurrences. simpl. destruct (names id c); reflexivity. Qed.

Lemma names_in_channel (id k n : string) :
  names id (Sample.in_channel k n) = (k =? id).
Proof. reflexivity. Qed.
End ResolverMore.

(** X1. After the scan of any list of casts the aggregate has at most one
    entry per channel-id. It has an entry for [id] exactly when some cast
    names [id] and [id] is not the name of a property inherited from
    [Object.prototype]; the entry holds the number of casts naming [id],
    which is at least 1, and the image and name of the first of them. *)
Theorem channel_activity_invariant :
  forall (casts : list Cast),
    NoDup (map fst (countChannels casts))
    /\ (forall id,
          JS.own_get (countChannels casts) id
          = if JS.inherited id then None
            else match first_channel id casts with
                 | Some ch =>
                     Some {| Activity.count := Z.of_nat (occurrences id casts);
                             Activity.imageUrl := channelImageUrl_of ch;
                             Activity.name := Channel.name ch |}
                 | None => None
                 end)
    /\ (forall id a,
          JS.own_get (countChannels casts) id = Some a ->
          (1 <= Activity.count a)%Z /\ mentions id casts = true).
Proof.
  intros casts. split; [apply countChannels_keys|].
  split; [intros id; apply countChannels_entry|].
  intros id a Hget. rewrite countChannels_entry in Hget.
  unfold expected_entry in Hget.
  destruct (JS.inherited id); [discriminate|].
  destruct (first_channel id casts) as [ch|] eqn:Hch; [|discriminate].
  assert (Hm : mentions id casts = true)
    by (apply mentions_first_channel; exists ch; assumption).
  split; [|assumption].
  inversion Hget; subst a. simpl.
  pose proof (occurrences_positive _ _ Hm). lia.
Qed.

(** X2. Casts that have no channel do not change what the resolver
    selects, and neither do casts whose channel-id is shadowed by an
    inherited property: the aggregate and the selection are those of the
    list without them. *)
Theorem uncounted_casts_ignored :
  forall (address : string) (casts : list Cast),
    countChannels (filter has_channel casts) = countChannels casts
    /\ countChannels (filter counted casts) = countChannels casts
    /\ selectChannel address (filter has_channel casts)
       = selectChannel address casts
    /\ selectChannel address (filter counted casts)
       = selectChannel address casts.
Proof.
  intros address casts.
  assert (H1 : countChannels (filter has_channel casts) = countChannels casts).
  { apply countChannels_filter. intros c Hc. unfold uncounted.
    rewrite Hc. reflexivity. }
  pose proof (countChannels_counted casts) as H2.
  unfold selectChannel. rewrite H1, H2. repeat split; reflexivity.
Qed.

(** X3. A channel that is named by strictly more casts than every other
    channel wins, wherever its casts stand in the list and whatever the
    ids of the others are: the resolver returns the image and name of its
    first cast. (Channels with a shadowed id do not compete.) *)
Theorem strict_majority_wins :
  forall (upstream : Upstream) (address : string) (casts : list Cast)
         (winner : Channel.t),
    address <> "" ->
    serves upstream address casts ->
    JS.inherited (Channel.id winner) = false ->
    first_channel (Channel.id winner) casts = Some winner ->
    (forall id, id <> Channel.id winner -> JS.inherited id = false ->
                (occurrences id casts
                 < occurrences (Channel.id winner) casts)%nat) ->
    outcome (fetchMostActiveChannelImage upstream (JS.Str address))
    = Returned (Some (image_of address winner)).
Proof.
  intros upstream address casts winner Hne Hserves Hinh Hfirst Hstrict.
  rewrite (fetch_served _ _ _ Hne Hserves).
  assert (Hm : mentions (Channel.id winner) casts = true)
    by (apply mentions_first_channel; exists winner; assumption).
  destruct casts as [|c0 l0] eqn:Ecasts; [discriminate|].
  rewrite <- Ecasts in *. clear Ecasts c0 l0.
  replace (length casts =? 0)%nat with false
    by (symmetry; apply Nat.eqb_neq; apply first_index_lt in Hm; lia).
  f_equal.
  set (kept := filter counted casts).
  assert (Hocc : forall id, JS.inherited id = false ->
                            occurrences id kept = occurrences id casts).
  { intros id Hid. unfold occurrences, kept.
    rewrite filter_names_counted; [reflexivity|assumption]. }
  assert (Hfc : forall id, JS.inherited id = false ->
                           first_channel id kept = first_channel id casts).
  { intros id Hid. unfold first_channel, kept.
    rewrite find_names_counted; [reflexivity|assumption]. }
  assert (Hwk : mentions (Channel.id winner) kept = true).
  { apply mentions_first_channel. exists winner.
    rewrite Hfc; assumption. }
  assert (Hsome : existsb has_channel kept = true).
  { unfold mentions in Hwk. apply existsb_exists in Hwk.
    destruct Hwk as [c [Hin Hn]]. apply existsb_exists. exists c.
    split; [assumption|]. apply filter_In in Hin.
    apply counted_has_channel, Hin. }
  pose proof (selectChannel_maximum address kept Hsome
                (counted_not_shadowed casts)) as [ch [Hch [Hres [Hmax _]]]].
  rewrite <- (selectChannel_counted address casts). fold kept.
  rewrite Hres. f_equal. f_equal.
  assert (Hchm : mentions (Channel.id ch) kept = true)
    by (apply mentions_first_channel; exists ch; assumption).
  pose proof (mentions_not_shadowed _ _ (counted_not_shadowed casts) Hchm)
    as Hchi.
  destruct (string_dec (Channel.id ch) (Channel.id winner)) as [Heq|Hneq].
  - rewrite Heq, (Hfc _ Hinh), Hfirst in Hch. congruence.
  - exfalso. specialize (Hstrict _ Hneq Hchi).
    specialize (Hmax _ Hwk). rewrite (Hocc _ Hinh), (Hocc _ Hchi) in Hmax.
    lia.
Qed.

Lemma strict_majority_wins_witness :
  outcome (fetchMostActiveChannelImage (Sample.serving Sample.three_two)
                                       (JS.Str Sample.address))
  = Returned (Some (image_of Sample.address
                             {| Channel.id := "a";
                                Channel.name := "A";
                                Channel.imageUrl := None;
                                Channel.image_url := Some "https://img/a" |})).
Proof.
  apply (strict_majority_wins (Sample.serving Sample.three_two)
                              Sample.address Sample.three_two).
  - discriminate.
  - apply sample_serves.
  - reflexivity.
  - reflexivity.
  - intros id Hneq _. simpl Channel.id in *. unfold Sample.three_two.
    rewrite !occurrences_cons, !names_in_channel.
    rewrite String.eqb_refl.
    destruct ("a" =? id) eqn:Ea;
      [apply String.eqb_eq in Ea; congruence|].
    destruct ("b" =? id); unfold occurrences; simpl; lia.
Defined.

(** X4. Whenever the resolver returns a channel, the record carries the
    address exactly as it was given, and its image and name are those of a
    channel that some cast of the feed is in; it never returns a channel
    whose id is shadowed by an inherited property. *)
Theorem found_channel_from_cast :
  forall (upstream : Upstream) (given : JS.value)
         (found : MostActiveChannelImage),
    outcome (fetchMostActiveChannelImage upstream given)
    = Returned (Some found) ->
    exists a casts cast ch,
      given = JS.Str a
      /\ serves upstream a casts
      /\ In cast casts
      /\ channel cast = Some ch
      /\ JS.inherited (Channel.id ch) = false
      /\ found = {| channelImageUrl := channelImageUrl_of ch;
                    address := a;
                    channelName := Channel.name ch |}.
Proof.
  intros upstream given found Hout.
  destruct (fetch_found _ _ _ Hout) as [a [casts [Hgiven [_ [Hserves Hsel]]]]].
  unfold selectChannel, mostActiveOf in Hsel.
  destruct (JS.Object_entries (countChannels casts)) as [|e0 l0] eqn:Hentries;
    [discriminate|].
  assert (Hne : JS.Object_entries (countChannels casts) <> [])
    by (rewrite Hentries; discriminate).
  rewrite <- Hentries in Hsel.
  destruct (pick_first_maximum _ Hne) as [l1 [[k act] [l2 [Hl [Hf _]]]]].
  rewrite Hf in Hsel. injection Hsel as Hfound.
  assert (Hin : In (k, act) (JS.Object_entries (countChannels casts)))
    by (rewrite Hl; apply in_app_iff; right; left; reflexivity).
  destruct (entry_mentioned _ _ _ Hin) as [ch [Hch Hact]].
  destruct (first_channel_In _ _ _ Hch) as [cast [Hcast Hchannel]].
  exists a, casts, cast, ch.
  split; [assumption|]. split; [assumption|]. split; [assumption|].
  split; [assumption|]. split.
  - rewrite (first_channel_id _ _ _ Hch).
    apply (proj1 (EntriesFacts.Object_entries_In _ _)) in Hin.
    apply (in_map fst) in Hin.
    apply (countChannels_key_mentioned casts k Hin).
  - rewrite <- Hfound, Hact. reflexivity.
Qed.

Lemma found_channel_from_cast_witness :
  exists a casts cast ch,
    JS.Str Sample.address = JS.Str a
    /\ serves (Sample.serving Sample.three_two) a casts
    /\ In cast casts
    /\ channel cast = Some ch
    /\ JS.inherited (Channel.id ch) = false
    /\ {| channelImageUrl := "https://img/a";
          address := Sample.address;
          channelName := "A" |}
       = {| channelImageUrl := channelImageUrl_of ch;
            address := a;
            channelName := Channel.name ch |}.
Proof.
  apply (found_channel_from_cast (Sample.serving Sample.three_two)).
  vm_compute. reflexivity.
Defined.

(** X5. For a non-empty address the resolver makes one identity lookup,
    with the address as given (not lower-cased), and then at most one feed
    request, for the fid of the first identity listed under the lower-cased
    address; it makes the feed request exactly when there is such an
    identity, and it repeats no call, whether the calls fail or not. The
    lower-casing is the host's, whatever it does to the address. *)
Theorem remote_calls_sequence :
  forall (upstream : Upstream) (address : string),
    address <> "" ->
    calls (fetchMostActiveChannelImage upstream (JS.Str address))
    = GetBulkByAddress [address]
      :: match first_identity upstream address with
         | Some user => [GetFeedUserPopular (fid user)]
         | None => []
         end.
Proof.
  intros upstream address Hne.
  unfold fetchMostActiveChannelImage, first_identity. simpl.
  apply String.eqb_neq in Hne. rewrite Hne. simpl.
  destruct (bulk_by_address upstream address) as [[d|]|error];
    try reflexivity.
  unfold lookupFid, JS.get.
  destruct (JS.own_get d (toLowerCase upstream address)) as [[|user rest]|].
  - reflexivity.
  - destruct (feed_user_popular upstream (fid user)); reflexivity.
  - destruct (JS.inherited (toLowerCase upstream address)); [|reflexivity].
    destruct (JS.inherited_length (toLowerCase upstream address)) as [[| |]|];
      reflexivity.
Qed.

Lemma remote_calls_sequence_witness :
  calls (fetchMostActiveChannelImage (Sample.serving Sample.three_two)
                                     (JS.Str Sample.address))
  = GetBulkByAddress [Sample.address]
    :: match first_identity (Sample.serving Sample.three_two) Sample.address
       with
       | Some user => [GetFeedUserPopular (fid user)]
       | None => []
       end.
Proof.
  apply (remote_calls_sequence (Sample.serving Sample.three_two)
                               Sample.address).
  discriminate.
Defined.

(** X6. For a non-empty address the resolver returns null in exactly
    these cases: one of its remote calls is answered with HTTP status 404;
    the identity response has no body, or lists no identity under the
    lower-cased address, or has no own property for it while what is
    inherited under that key, if anything, is a function without
    parameters; or both calls succeed and every cast of the feed (an absent
    cast list counts as empty) has no channel or a channel whose id is
    shadowed by an inherited property. The lower-casing is the host's,
    whatever it does to the address. *)
Theorem not_found_exactly :
  forall (upstream : Upstream) (address : string),
    address <> "" ->
    (outcome (fetchMostActiveChannelImage upstream (JS.Str address))
     = Returned None
     <-> (exists error,
            rejects upstream address error
            /\ http_status error = Some 404%Z)
         \/ (exists data,
               bulk_by_address upstream address = Resolved data
               /\ no_identity data (toLowerCase upstream address))
         \/ (exists casts,
               serves upstream address casts
               /\ forallb uncounted casts = true)).
Proof.
  intros upstream address Hne.
  rewrite (returns_null_iff upstream address Hne). unfold not_found_case.
  split.
  - intros [H|[[data [Hb Hl]]|H]]; [left; assumption| |right; right; assumption].
    right; left. exists data. split; [assumption|].
    apply lookupFid_none_iff; assumption.
  - intros [H|[[data [Hb Hl]]|H]]; [left; assumption| |right; right; assumption].
    right; left. exists data. split; [assumption|].
    apply lookupFid_none_iff; assumption.
Qed.

Lemma not_found_exactly_witness :
  outcome (fetchMostActiveChannelImage
             (Sample.failing (Sample.status_error 404))
             (JS.Str Sample.address))
  = Returned None
  <-> (exists error,
         rejects (Sample.failing (Sample.status_error 404))
                 Sample.address error
         /\ http_status error = Some 404%Z)
      \/ (exists data,
            bulk_by_address (Sample.failing (Sample.status_error 404))
                            Sample.address = Resolved data
            /\ no_identity data (JS.asciiToLowerCase Sample.address))
      \/ (exists casts,
            serves (Sample.failing (Sample.status_error 404))
                   Sample.address casts
            /\ forallb uncounted casts = true).
Proof.
  apply (not_found_exactly (Sample.failing (Sample.status_error 404))
                           Sample.address).
  discriminate.
Defined.

(** X7. The counts of the aggregate add up to the number of casts that
    have a channel with an id that is not shadowed: the scan counts each
    such cast once, and no other cast. *)
Theorem counts_add_up :
  forall (casts : list Cast),
    total_count (countChannels casts)
    = Z.of_nat (length (filter counted casts)).
Proof.
  intros casts. induction casts as [|c l IH] using rev_ind; [reflexivity|].
  rewrite countChannels_snoc, filter_app, length_app, Nat2Z.inj_add, <- IH.
  pose proof (tally_step (countChannels l) c) as Hstep.
  simpl filter. unfold counted, uncounted, has_channel, shadowed.
  destruct (channel c) as [ch|]; [|rewrite Hstep; simpl; lia].
  cbv zeta in Hstep. simpl negb.
  destruct (JS.inherited (Channel.id ch)) eqn:Hinh.
  - rewrite Hstep; [simpl; lia|].
    rewrite countChannels_entry. unfold expected_entry. rewrite Hinh.
    reflexivity.
  - destruct (JS.own_get (countChannels l) (Channel.id ch)) as [a|] eqn:Hget;
      rewrite Hstep.
    + rewrite (total_count_set _ _ _ _ Hget). simpl. lia.
    + rewrite total_count_snoc. simpl. lia.
Qed.

Lemma no_channel_uncounted (casts : list Cast) :
  existsb has_channel casts = false -> forallb uncounted casts = true.
Proof.
  induction casts as [|c l IH]; simpl; [reflexivity|].
  intros H. apply orb_false_iff in H. destruct H as [Hc Hl].
  rewrite (IH Hl). unfold uncounted. rewrite Hc. reflexivity.
Qed.

(** X14. For every list of casts, whatever the ids in it: when the
    resolver selects a channel, that channel is named by some cast, its id
    is not shadowed by an inherited property, the image and name returned
    are those of its first cast, and no channel with an unshadowed id is
    named by more casts. *)
Theorem selected_channel_is_maximal :
  forall (address : string) (casts : list Cast)
         (found : MostActiveChannelImage),
    selectChannel address casts = Some found ->
    exists ch,
      first_channel (Channel.id ch) casts = Some ch
      /\ JS.inherited (Channel.id ch) = false
      /\ found = image_of address ch
      /\ forall id, JS.inherited id = false ->
                    (occurrences id casts
                     <= occurrences (Channel.id ch) casts)%nat.
Proof.
  intros address casts found Hsel.
  set (kept := filter counted casts).
  assert (Hocc : forall id, JS.inherited id = false ->
                            occurrences id kept = occurrences id casts).
  { intros id Hid. unfold occurrences, kept.
    rewrite filter_names_counted; [reflexivity|assumption]. }
  assert (Hfc : forall id, JS.inherited id = false ->
                           first_channel id kept = first_channel id casts).
  { intros id Hid. unfold first_channel, kept.
    rewrite find_names_counted; [reflexivity|assumption]. }
  rewrite <- (selectChannel_counted address casts) in Hsel. fold kept in Hsel.
  assert (Hsome : existsb has_channel kept = true).
  { destruct (existsb has_channel kept) eqn:E; [reflexivity|].
    apply no_channel_uncounted in E.
    apply (selectChannel_none_iff address) in E. congruence. }
  pose proof (selectChannel_maximum address kept Hsome
                (counted_not_shadowed casts)) as [ch [Hch [Hres [Hmax _]]]].
  assert (Hchm : mentions (Channel.id ch) kept = true)
    by (apply mentions_first_channel; exists ch; assumption).
  pose proof (mentions_not_shadowed _ _ (counted_not_shadowed casts) Hchm)
    as Hchi.
  exists ch. split; [rewrite <- (Hfc _ Hchi); assumption|].
  split; [assumption|]. split; [congruence|].
  intros id Hid. rewrite <- (Hocc _ Hid), <- (Hocc _ Hchi).
  destruct (mentions id kept) eqn:Hm; [apply Hmax; assumption|].
  assert (H0 : occurrences id kept = 0%nat).
  { apply first_channel_none_occurrences.
    destruct (first_channel id kept) as [c|] eqn:E; [|reflexivity].
    assert (mentions id kept = true)
      by (apply mentions_first_channel; exists c; assumption).
    congruence. }
  rewrite H0. lia.
Qed.

Lemma selected_channel_is_maximal_witness :
  exists ch,
    first_channel (Channel.id ch) Sample.tied_casts = Some ch
    /\ JS.inherited (Channel.id ch) = false
    /\ {| channelImageUrl := "https://img/1";
          address := Sample.address;
          channelName := "One" |}
       = image_of Sample.address ch
    /\ forall id, JS.inherited id = false ->
                  (occurrences id Sample.tied_casts
                   <= occurrences (Channel.id ch) Sample.tied_casts)%nat.
Proof.
  apply (selected_channel_is_maximal Sample.address Sample.tied_casts).
  vm_compute. reflexivity.
Defined.

(* ================================================================= *)
(** ** More on the handler *)

Section IncludesFacts.
Import JS.

Lemma prefix_app (n x y : string) :
  prefix n x = true -> prefix n (x ++ y) = true.
Proof.
  revert x. induction n as [|a n IH]; intros x.
  - intros _. destruct (x ++ y); reflexivity.
  - destruct x as [|b x]; simpl; [discriminate|].
    destruct (ascii_dec a b); [apply IH|discriminate].
Qed.

Lemma includes_app_r (x y n : string) :
  includes y n = true -> includes (x ++ y) n = true.
Proof.
  intros H. induction x as [|c x IH]; simpl; [assumption|].
  rewrite IH. apply orb_true_r.
Qed.

Lemma includes_prefix (y n : string) :
  prefix n y = true -> includes y n = true.
Proof.
  intros H. destruct y; unfold includes; fold includes; rewrite H;
    reflexivity.
Qed.

Lemma includes_app_l (x y n : string) :
  includes x n = true -> includes (x ++ y) n = true.
Proof.
  induction x as [|c x IH].
  - unfold includes at 1. rewrite orb_false_r. intros H.
    apply includes_prefix. apply (prefix_app n "" y H).
  - unfold includes at 1; fold includes. intros H.
    apply orb_true_iff in H. destruct H as [H|H].
    + apply includes_prefix. apply (prefix_app _ _ y H).
    + change (includes (String c (x ++ y)) n = true).
      unfold includes; fold includes. rewrite (IH H). apply orb_true_r.
Qed.

(** The message of the catch-all error contains whatever the address or
    the text of the cause contains. *)
Lemma wrapped_message_includes (address : string) (cause : Error)
      (needle : string) :
  includes address needle || includes (toString cause) needle = true ->
  includes (error_message (FetchFailed address cause)) needle = true.
Proof.
  intros H. apply orb_true_iff in H. unfold error_message.
  apply includes_app_r. destruct H as [H|H].
  - apply includes_app_l; assumption.
  - apply includes_app_r, includes_app_r; assumption.
Qed.
End IncludesFacts.

Lemma handler_resolved (world : World) (req : VercelRequest)
      (templateImage : Canvas.Image) :
  JS.truthy (query_address req) = true ->
  loadImage world TemplateLoad (templatePath world) = Some templateImage ->
  handler world req
  = match outcome (fetchMostActiveChannelImage (upstream world)
                                               (query_address req)) with
    | Threw error => respondToError world error
    | Returned found => render world templateImage found
    end.
Proof.
  intros Hpresent Htemplate. unfold handler.
  rewrite Hpresent, Htemplate. reflexivity.
Qed.

(** X8. Every answer of the handler has status 200, 400, 429, 500 or 503.
    The answer is a PNG exactly when the status is 200; every other answer
    is a JSON object that starts with an "error" text. The headers go with
    the status: the content type, cache and security headers with 200,
    Retry-After 60 and X-RateLimit-Reset one minute after now with 429,
    Retry-After 30 with 503, and none with 400 and 500. *)
Theorem handler_response_shape :
  forall (world : World) (req : VercelRequest),
    let response := handler world req in
    In (statusCode response) [200; 400; 429; 500; 503]%Z
    /\ (statusCode response = 200%Z
        <-> exists canvas, body response = PngBuffer canvas)
    /\ (forall fields, body response = JsonBody fields ->
          exists text rest, fields = ("error", JString text) :: rest)
    /\ headers response
       = (if (statusCode response =? 200)%Z
          then [ ("Content-Type", Text "image/png");
                 ("Cache-Control", Text "public, max-age=300");
                 ("X-Content-Type-Options", Text "nosniff");
                 ("X-Frame-Options", Text "DENY") ]
          else if (statusCode response =? 429)%Z
          then [ ("Retry-After", Text "60");
                 ("X-RateLimit-Reset", IsoDate (now world + 60000)) ]
          else if (statusCode response =? 503)%Z
          then [ ("Retry-After", Text "30") ]
          else []).
Proof.
  intros world req. cbv zeta. unfold handler.
  destruct (negb (JS.truthy (query_address req))).
  { simpl. split; [tauto|]. split; [split; [discriminate|intros [c H]; discriminate]|].
    split; [|reflexivity]. intros fields H. inversion H. eauto. }
  destruct (loadImage world TemplateLoad (templatePath world)) as [tpl|].
  2:{ simpl. split; [tauto|].
      split; [split; [discriminate|intros [c H]; discriminate]|].
      split; [|reflexivity]. intros fields H. inversion H. eauto. }
  destruct (outcome _) as [found|error].
  - unfold render. simpl. split; [tauto|].
    split; [split; [eauto|reflexivity]|].
    split; [|reflexivity]. intros fields H. discriminate.
  - unfold respondToError.
    destruct (_ || _); [|destruct (JS.includes _ _)]; simpl;
      (split; [tauto|]);
      (split; [split; [discriminate|intros [c H]; discriminate]|]);
      (split; [|reflexivity]); intros fields H; inversion H; eauto.
Qed.

(** X9. The handler answers "Valid Ethereum address is required" exactly
    when the address parameter is absent or empty, whatever the template
    and the upstream do; and it answers 500 exactly when the address is
    present and the template does not load. *)
Theorem handler_early_exits :
  forall (world : World) (req : VercelRequest),
    (handler world req
     = {| statusCode := 400;
          headers := [];
          body := JsonBody
            [ ("error", JString "Valid Ethereum address is required") ] |}
     <-> JS.truthy (query_address req) = false)
    /\ (statusCode (handler world req) = 500%Z
        <-> JS.truthy (query_address req) = true
            /\ loadImage world TemplateLoad (templatePath world) = None).
Proof.
  intros world req. unfold handler.
  destruct (JS.truthy (query_address req)); simpl.
  2:{ split; [tauto|]. split; [discriminate|intros [H _]; discriminate]. }
  destruct (loadImage world TemplateLoad (templatePath world)) as [tpl|].
  2:{ simpl. split; [split; discriminate|tauto]. }
  destruct (outcome _) as [found|error].
  - unfold render. simpl.
    split; [split; discriminate|].
    split; [discriminate|intros [_ H]; discriminate].
  - unfold respondToError.
    destruct (_ || _); [|destruct (JS.includes _ _)]; simpl;
      (split; [split; discriminate|]);
      (split; [discriminate|intros [_ H]; discriminate]).
Qed.

(** X10. A present address that is not a string (the query parser gives
    an array when the parameter is repeated) is answered 400 "Invalid
    Ethereum address provided" once the template has loaded, without
    regard to the upstream. *)
Theorem non_string_address_rejected :
  forall (world : World) (req : VercelRequest) (templateImage : Canvas.Image),
    JS.truthy (query_address req) = true ->
    (forall s, query_address req <> JS.Str s) ->
    loadImage world TemplateLoad (templatePath world) = Some templateImage ->
    handler world req
    = {| statusCode := 400;
         headers := [];
         body := JsonBody
           [ ("error", JString "Invalid Ethereum address provided");
             ("message", JString
                "Please provide a valid Ethereum address in 0x format.") ] |}.
Proof.
  intros world req templateImage Hpresent Hnot Htemplate.
  rewrite (handler_resolved _ _ _ Hpresent Htemplate).
  assert (Hout : outcome (fetchMostActiveChannelImage (upstream world)
                                                      (query_address req))
                 = Threw InvalidAddress).
  { destruct (query_address req) as [| |b|n|s|l] eqn:E;
      try reflexivity;
      try (unfold fetchMostActiveChannelImage; simpl;
           rewrite orb_true_r; reflexivity).
    exfalso. apply (Hnot s). reflexivity. }
  rewrite Hout. vm_compute. reflexivity.
Qed.

Lemma non_string_address_rejected_witness :
  handler SampleRender.world
          {| query_address := JS.StrArray ["0xabc"; "0xdef"] |}
  = {| statusCode := 400;
       headers := [];
       body := JsonBody
         [ ("error", JString "Invalid Ethereum address provided");
           ("message", JString
              "Please provide a valid Ethereum address in 0x format.") ] |}.
Proof.
  apply (non_string_address_rejected
           SampleRender.world
           {| query_address := JS.StrArray ["0xabc"; "0xdef"] |}
           SampleWorld.template).
  - reflexivity.
  - intros s H. discriminate H.
  - reflexivity.
Defined.

(** X11. When a remote call is answered with status 401, 403, or 500 and
    above, the handler answers 503 with Retry-After: 30 and the "service
    temporarily unavailable" body, for every non-empty address. *)
Theorem upstream_errors_unavailable :
  forall (world : World) (req : VercelRequest) (address : string)
         (error : JS.Error) (templateImage : Canvas.Image) (status : Z),
    query_address req = JS.Str address ->
    address <> "" ->
    loadImage world TemplateLoad (templatePath world) = Some templateImage ->
    rejects (upstream world) address error ->
    http_status error = Some status ->
    (status = 401 \/ status = 403 \/ 500 <= status)%Z ->
    handler world req
    = {| statusCode := 503;
         headers := [ ("Retry-After", Text "30") ];
         body := JsonBody
           [ ("error", JString
                "External API service temporarily unavailable. Please try again later.");
             ("message", JString
                "The external API is currently experiencing issues. Please retry in 30 seconds.") ] |}.
Proof.
  intros world req address error templateImage status
         Haddr Hne Htemplate Hrej Hstatus Hcases.
  assert (Hpresent : JS.truthy (query_address req) = true).
  { rewrite Haddr. simpl. apply String.eqb_neq in Hne. rewrite Hne.
    reflexivity. }
  rewrite (handler_resolved _ _ _ Hpresent Htemplate), Haddr.
  rewrite (fetch_rejected _ _ _ Hne Hrej).
  unfold on_error. unfold http_status in Hstatus.
  destruct (JS.isAxiosError error); [|discriminate]. rewrite Hstatus.
  destruct (status =? 401)%Z eqn:E1; [vm_compute; reflexivity|].
  destruct (status =? 403)%Z eqn:E3; [vm_compute; reflexivity|].
  destruct (status =? 404)%Z eqn:E4; [lia|].
  destruct (status >=? 500)%Z eqn:E5; [vm_compute; reflexivity|lia].
Qed.

Lemma upstream_errors_unavailable_witness :
  handler (SampleWorld.world (Sample.failing (Sample.status_error 500)))
          (SampleWorld.request SampleWorld.address_429)
  = {| statusCode := 503;
       headers := [ ("Retry-After", Text "30") ];
       body := JsonBody
         [ ("error", JString
              "External API service temporarily unavailable. Please try again later.");
           ("message", JString
              "The external API is currently experiencing issues. Please retry in 30 seconds.") ] |}.
Proof.
  apply (upstream_errors_unavailable
           (SampleWorld.world (Sample.failing (Sample.status_error 500)))
           (SampleWorld.request SampleWorld.address_429)
           SampleWorld.address_429 (Sample.status_error 500)
           SampleWorld.template 500%Z).
  - reflexivity.
  - discriminate.
  - reflexivity.
  - left. reflexivity.
  - reflexivity.
  - right. right. lia.
Defined.

(** X12. When a remote call fails in a way the resolver wraps (no HTTP
    status, or a status other than 401, 403, 404 and below 500) and the
    address or the text of the cause contains "429" or "Rate limit
    exceeded", the handler answers 429 with Retry-After: 60,
    X-RateLimit-Reset one minute after now and retryAfter 60 in the body.
    This is how an upstream 429 is answered, axios naming the status in the
    text of its error. *)
Theorem rate_limit_text_answered :
  forall (world : World) (req : VercelRequest) (address : string)
         (error : JS.Error) (templateImage : Canvas.Image),
    query_address req = JS.Str address ->
    address <> "" ->
    loadImage world TemplateLoad (templatePath world) = Some templateImage ->
    rejects (upstream world) address error ->
    (forall status, http_status error = Some status ->
                    status <> 401 /\ status <> 403 /\ status <> 404
                    /\ status < 500)%Z ->
    (JS.includes address "429" || JS.includes (JS.toString error) "429")
    || (JS.includes address "Rate limit exceeded"
        || JS.includes (JS.toString error) "Rate limit exceeded") = true ->
    handler world req
    = {| statusCode := 429;
         headers := [ ("Retry-After", Text "60");
                      ("X-RateLimit-Reset", IsoDate (now world + 60000)) ];
         body := JsonBody
           [ ("error",
              JString "Rate limit exceeded. Please try again later.");
             ("retryAfter", JNumber 60);
             ("message", JString
                "Too many requests to external API. Please wait before retrying.") ] |}.
Proof.
  intros world req address error templateImage
         Haddr Hne Htemplate Hrej Hwrapped Htext.
  assert (Hpresent : JS.truthy (query_address req) = true).
  { rewrite Haddr. simpl. apply String.eqb_neq in Hne. rewrite Hne.
    reflexivity. }
  rewrite (handler_resolved _ _ _ Hpresent Htemplate), Haddr.
  rewrite (fetch_rejected _ _ _ Hne Hrej).
  assert (Hon : on_error address error = Threw (FetchFailed address error)).
  { unfold on_error. unfold http_status in Hwrapped.
    destruct (JS.isAxiosError error); [|reflexivity].
    destruct (JS.response_status error) as [s|]; [|reflexivity].
    destruct (Hwrapped s eq_refl) as [H1 [H3 [H4 H5]]].
    destruct (s =? 401)%Z eqn:E1; [lia|].
    destruct (s =? 403)%Z eqn:E3; [lia|].
    destruct (s =? 404)%Z eqn:E4; [lia|].
    destruct (s >=? 500)%Z eqn:E5; [lia|reflexivity]. }
  rewrite Hon. unfold respondToError.
  assert (Hmsg :
    JS.includes (error_message (FetchFailed address error))
                "Rate limit exceeded"
    || JS.includes (error_message (FetchFailed address error)) "429" = true).
  { apply orb_true_iff in Htext. apply orb_true_iff.
    destruct Htext as [H|H]; [right|left];
      apply wrapped_message_includes; assumption. }
  rewrite Hmsg. reflexivity.
Qed.

Lemma rate_limit_text_answered_witness :
  let world :=
    SampleWorld.world (Sample.failing (Sample.status_error 429)) in
  handler world (SampleWorld.request Sample.address)
  = {| statusCode := 429;
       headers := [ ("Retry-After", Text "60");
                    ("X-RateLimit-Reset", IsoDate (now world + 60000)) ];
       body := JsonBody
         [ ("error",
            JString "Rate limit exceeded. Please try again later.");
           ("retryAfter", JNumber 60);
           ("message", JString
              "Too many requests to external API. Please wait before retrying.") ] |}.
Proof.
  apply (rate_limit_text_answered
           (SampleWorld.world (Sample.failing (Sample.status_error 429)))
           (SampleWorld.request Sample.address)
           Sample.address (Sample.status_error 429) SampleWorld.template).
  - reflexivity.
  - discriminate.
  - reflexivity.
  - left. reflexivity.
  - intros status H. vm_compute in H. inversion H. lia.
  - vm_compute. reflexivity.
Defined.

Section Degrade.
Open Scope float_scope.
#[local] Set Warnings "-inexact-float".

(** X13. Once the resolver has returned, no image failure turns the
    answer into an error: the handler answers 200 with the PNG headers. On
    a canvas of the size of the template it paints the template at the
    origin and then one artwork, fitted into 670 by 670 around the shifted
    centre, with its border: the channel image when the resolver found a
    channel with a non-empty image URL and that image loads, and in every
    other case (no channel, empty URL, or the image does not load) the
    placeholder. When the placeholder does not load either, only the
    template is painted. *)
Theorem image_failures_degrade :
  forall (world : World) (req : VercelRequest) (templateImage : Canvas.Image)
         (found : option MostActiveChannelImage),
    JS.truthy (query_address req) = true ->
    loadImage world TemplateLoad (templatePath world) = Some templateImage ->
    outcome (fetchMostActiveChannelImage (upstream world) (query_address req))
    = Returned found ->
    let cw := Canvas.width templateImage in
    let ch := Canvas.height templateImage in
    let placeholder := loadImage world PlaceholderLoad placeholderUrl in
    let artwork :=
      match found with
      | Some channel =>
          if (channelImageUrl channel =? "")%string then placeholder
          else match loadImage world ArtworkLoad (channelImageUrl channel)
               with
               | Some image => Some image
               | None => placeholder
               end
      | None => placeholder
      end in
    handler world req
    = {| statusCode := 200;
         headers := [ ("Content-Type", Text "image/png");
                      ("Cache-Control", Text "public, max-age=300");
                      ("X-Content-Type-Options", Text "nosniff");
                      ("X-Frame-Options", Text "DENY") ];
         body := PngBuffer
           match artwork with
           | Some image =>
               let r := Canvas.width image / Canvas.height image in
               let dw := if 670 <? 670 / r then 670 * r else 670 in
               let dh := if 670 <? 670 / r then 670 else 670 / r in
               let x := (cw - dw) / 2 + 0.1 in
               let y := (ch - dh) / 2 - 28.5 in
               {| Canvas.canvas_width := cw;
                  Canvas.canvas_height := ch;
                  Canvas.strokeStyle := "rgba(255, 255, 255, 0.3)";
                  Canvas.lineWidth := 2;
                  Canvas.painted :=
                    [ Canvas.ImageAt templateImage 0 0;
                      Canvas.ImageIn image x y dw dh;
                      Canvas.StrokedRect "rgba(255, 255, 255, 0.3)" 2
                        (x - 2) (y - 2) (dw + 4) (dh + 4) ] |}
           | None =>
               {| Canvas.canvas_width := cw;
                  Canvas.canvas_height := ch;
                  Canvas.strokeStyle := "#000000";
                  Canvas.lineWidth := 1;
                  Canvas.painted := [ Canvas.ImageAt templateImage 0 0 ] |}
           end |}.
Proof.
  intros world req templateImage found Hpresent Htemplate Hout.
  cbv zeta. rewrite (handler_resolved _ _ _ Hpresent Htemplate), Hout.
  unfold render. fold (templateCanvas templateImage).
  replace (chooseArtwork world found)
    with (match found with
          | Some channel =>
              if (channelImageUrl channel =? "")%string
              then loadImage world PlaceholderLoad placeholderUrl
              else match loadImage world ArtworkLoad (channelImageUrl channel)
                   with
                   | Some image => Some image
                   | None => loadImage world PlaceholderLoad placeholderUrl
                   end
          | None => loadImage world PlaceholderLoad placeholderUrl
          end).
  2:{ unfold chooseArtwork. destruct found as [channel|]; simpl.
      - destruct (channelImageUrl channel =? "")%string; simpl.
        + destruct (loadImage world PlaceholderLoad placeholderUrl);
            reflexivity.
        + destruct (loadImage world ArtworkLoad (channelImageUrl channel));
            simpl; [reflexivity|].
          destruct (loadImage world PlaceholderLoad placeholderUrl);
            reflexivity.
      - destruct (loadImage world PlaceholderLoad placeholderUrl);
          reflexivity. }
  match goal with
  | |- context [match ?a with Some image => drawArtwork _ image | None => _ end] =>
      destruct a as [image|]
  end; [rewrite drawArtwork_template|]; reflexivity.
Qed.

Lemma image_failures_degrade_witness :
  handler SampleRender.world (SampleWorld.request Sample.address)
  = {| statusCode := 200;
       headers := [ ("Content-Type", Text "image/png");
                    ("Cache-Control", Text "public, max-age=300");
                    ("X-Content-Type-Options", Text "nosniff");
                    ("X-Frame-Options", Text "DENY") ];
       body := PngBuffer
         {| Canvas.canvas_width := 1000;
            Canvas.canvas_height := 1000;
            Canvas.strokeStyle := "rgba(255, 255, 255, 0.3)";
            Canvas.lineWidth := 2;
            Canvas.painted :=
              [ Canvas.ImageAt SampleWorld.template 0 0;
                Canvas.ImageIn SampleWorld.wide_artwork
                  ((1000 - 670) / 2 + 0.1) ((1000 - 335) / 2 - 28.5) 670 335;
                Canvas.StrokedRect "rgba(255, 255, 255, 0.3)" 2
                  ((1000 - 670) / 2 + 0.1 - 2) ((1000 - 335) / 2 - 28.5 - 2)
                  (670 + 4) (335 + 4) ] |} |}.
Proof.
  apply (image_failures_degrade
           SampleRender.world (SampleWorld.request Sample.address)
           SampleWorld.template
           (Some {| channelImageUrl := "https://img/a";
                    address := Sample.address;
                    channelName := "A" |})).
  - reflexivity.
  - reflexivity.
  - vm_compute. reflexivity.
Defined.
End Degrade.

(* ================================================================= *)
(** ** The alias kept for backward compatibility *)

(** C10. [fetchFirstMintedArtwork] is [fetchMostActiveChannelImage]: on
    every upstream and every address the two make the same remote calls and
    end the same way, with the same result or the same error. *)
Theorem fetchFirstMintedArtwork_same :
  forall (upstream : Upstream) (address : JS.value),
    fetchFirstMintedArtwork upstream address
    = fetchMostActiveChannelImage upstream address.
Proof.
  intros upstream address. unfold fetchFirstMintedArtwork. reflexivity.
Qed.
